(** * bodhi/views.py: the [updates] service

    A shallow embedding of the two views of the [updates] cornice service,
    [query_updates] (GET /updates/) and [new_update] (POST /updates/),
    together with the part of SQLAlchemy's [Query] and of cornice's
    service wrapper that gives them their meaning. *)

From stdpp Require Import base option list gmap strings sorting.
From Stdlib Require Import ZArith.

Local Open Scope string_scope.
Local Open Scope Z_scope.
Local Set Warnings "-register-all,-clear-no-such-hyp".

(** ** Data model (the mapped classes the views import from [.models]) *)

Inductive UpdateStatus := pending | testing | stable | obsolete | unpushed.
Inductive UpdateRequest := request_testing | request_stable | request_obsolete | request_unpush.
Inductive UpdateType := bugfix | enhancement | security | newpackage.

(** The members of the severity and suggestion enums are not named by the
    views, which only compare them for equality; they are kept as the
    enum's literal. *)
Definition UpdateSeverity := string.
Definition UpdateSuggestion := string.

#[global] Instance UpdateStatus_eq_dec : EqDecision UpdateStatus.
Proof. solve_decision. Defined.
#[global] Instance UpdateRequest_eq_dec : EqDecision UpdateRequest.
Proof. solve_decision. Defined.
#[global] Instance UpdateType_eq_dec : EqDecision UpdateType.
Proof. solve_decision. Defined.

(** A datetime is a point on the time line; only its order is used. *)
Definition datetime := Z.

Module Package.
Record t := mk { name : string; committers : list string }.
End Package.

Module Release.
Record t := mk { id : Z; name : string; candidate_tag : string }.
End Release.

Module User.
Record t := mk { id : Z; name : string }.
End User.

Module Bug.
Record t := mk { bug_id : Z }.
End Bug.

Module CVE.
Record t := mk { cve_id : string }.
End CVE.

Module Build.
Record t := mk { nvr : string; package : option Package.t }.
End Build.

(** Every column is nullable ([None] is SQL NULL); the relationships are
    the collections the ORM loads for the object. *)
Module Update.
Record t := mk {
  id : Z;
  title : string;
  status : option UpdateStatus;
  request : option UpdateRequest;
  type : option UpdateType;
  severity : option UpdateSeverity;
  suggest : option UpdateSuggestion;
  notes : option string;
  locked : option bool;
  critpath : option bool;
  pushed : option bool;
  qa_approved : option bool;
  qa_approval_date : option datetime;
  releng_approved : option bool;
  releng_approval_date : option datetime;
  security_approved : option bool;
  security_approval_date : option datetime;
  date_submitted : option datetime;
  date_modified : option datetime;
  date_approved : option datetime;
  date_pushed : option datetime;
  builds : list Build.t;
  bugs : list Bug.t;
  cves : list CVE.t;
  release : option Release.t;
  user : option User.t
}.
End Update.

(** The persisted store behind [request.db]. *)
Record Store := mkStore {
  updates : list Update.t;
  releases : list Release.t;
  users : list User.t;
  packages : list Package.t
}.

(** Primary keys identify the rows of the [updates] table. *)
Definition primary_keys_unique (db : Store) : Prop :=
  NoDup (Update.id <$> updates db).

(** ** Exceptions and the error monad *)

Inductive Entity := Update_entity | Bug_entity | CVE_entity | Build_entity | Package_entity.

#[global] Instance Entity_eq_dec : EqDecision Entity.
Proof. solve_decision. Defined.

(** The failure kinds of section 7 of the specification. *)
Inductive ErrorKind :=
  | InvalidBuildIdentifier | InvalidVersion | UnknownBuild | ReleaseMismatch
  | DuplicateBuild | UntaggedBuild | Forbidden | InvalidEnumValue
  | UpstreamUnavailable | NotFound | ConcurrentConflict.

Inductive Exception :=
  | InvalidRequestError (entity : Entity) (key : string)
  | UpdateError (kind : ErrorKind).

Inductive result (A : Type) :=
  | Ok (a : A)
  | Raise (e : Exception).
Arguments Ok {A} a.
Arguments Raise {A} e.

#[global] Instance result_ret : MRet result := λ A a, Ok a.
#[global] Instance result_bind : MBind result := λ A B f m,
  match m with Ok a => f a | Raise e => Raise e end.

(** ** JSON values *)

Inductive Json :=
  | JNull
  | JBool (b : bool)
  | JNum (n : Z)
  | JStr (s : string)
  | JArr (items : list Json)
  | JObj (members : list (string * Json)).

Definition dict (members : list (string * Json)) : Json := JObj members.

(** ** SQLAlchemy's Query, as far as the view uses it

    A query over [Update] yields rows that carry the update and the
    entities joined so far. *)
Record Row := mkRow {
  row_update : Update.t;
  row_bug : option Bug.t;
  row_cve : option CVE.t;
  row_build : option Build.t;
  row_package : option Package.t
}.

(** A query is lazy: it is evaluated against the store when iterated.
    [joinpoint] is the entity [filter_by] resolves its keywords on: the
    primary entity, or the target of the last [join]. *)
Record Query := mkQuery {
  rows : Store → list Row;
  joinpoint : Entity
}.

(** [db.query(Update)] *)
Definition db_query_Update : Query :=
  {| rows := λ db, (λ u, mkRow u None None None None) <$> updates db;
     joinpoint := Update_entity |}.

Inductive Relationship := Update_bugs | Update_cves | Update_builds | Build_package.

Definition target (rel : Relationship) : Entity :=
  match rel with
  | Update_bugs => Bug_entity
  | Update_cves => CVE_entity
  | Update_builds => Build_entity
  | Build_package => Package_entity
  end.

(** The rows an inner join along [rel] produces from one row. *)
Definition joined (rel : Relationship) (row : Row) : list Row :=
  match rel with
  | Update_bugs =>
      (λ b, mkRow (row_update row) (Some b) (row_cve row) (row_build row) (row_package row))
        <$> Update.bugs (row_update row)
  | Update_cves =>
      (λ c, mkRow (row_update row) (row_bug row) (Some c) (row_build row) (row_package row))
        <$> Update.cves (row_update row)
  | Update_builds =>
      (λ b, mkRow (row_update row) (row_bug row) (row_cve row) (Some b) (row_package row))
        <$> Update.builds (row_update row)
  | Build_package =>
      match row_build row ≫= Build.package with
      | Some p => [mkRow (row_update row) (row_bug row) (row_cve row) (row_build row) (Some p)]
      | None => []
      end
  end.

(** [query.join(rel)] *)
Definition Query_join (rel : Relationship) (query : Query) : Query :=
  {| rows := λ db, rows query db ≫= joined rel;
     joinpoint := target rel |}.

(** A comparison is true, or not true (false or NULL), on a row; the WHERE
    clause keeps the rows on which it is true. *)
Definition Comparison := Row → bool.

Inductive Clause :=
  | Compare (c : Comparison)
  | or_ (clauses : list Comparison).

Definition holds (criterion : Clause) (row : Row) : bool :=
  match criterion with
  | Compare c => c row
  | or_ clauses => existsb (λ c, c row) clauses
  end.

(** [query.filter(criterion)]; an [or_()] of no clauses renders as no
    text and leaves the WHERE clause as it was. *)
Definition Query_filter (criterion : Clause) (query : Query) : Query :=
  match criterion with
  | or_ [] => query
  | _ => {| rows := λ db, filter (λ row, holds criterion row) (rows query db);
            joinpoint := joinpoint query |}
  end.

(** [column >= value] on a column of [Update] *)
Definition ge (column : Update.t → option datetime) (value : datetime) : Comparison :=
  λ row, match column (row_update row) with
         | Some d => bool_decide (value ≤ d)
         | None => false
         end.

(** [column == value] on a column of [Update] *)
Definition eq_ {A} `{EqDecision A} (column : Update.t → option A) (value : A) : Comparison :=
  λ row, bool_decide (column (row_update row) = Some value).

(** [Bug.bug_id == bug_id] *)
Definition Bug_bug_id_eq (bug_id : Z) : Comparison :=
  λ row, match row_bug row with
         | Some b => bool_decide (Bug.bug_id b = bug_id)
         | None => false
         end.

(** [CVE.cve_id == cve_id] *)
Definition CVE_cve_id_eq (cve_id : string) : Comparison :=
  λ row, match row_cve row with
         | Some c => bool_decide (CVE.cve_id c = cve_id)
         | None => false
         end.

(** [Package.name == pkg] *)
Definition Package_name_eq (pkg : string) : Comparison :=
  λ row, match row_package row with
         | Some p => bool_decide (Package.name p = pkg)
         | None => false
         end.

(** [Update.release == r]: the many-to-one comparison is on the foreign key. *)
Definition Update_release_eq (r : Release.t) : Comparison :=
  λ row, match Update.release (row_update row) with
         | Some r' => bool_decide (Release.id r' = Release.id r)
         | None => false
         end.

(** [Update.user == user] *)
Definition Update_user_eq (user : User.t) : Comparison :=
  λ row, match Update.user (row_update row) with
         | Some u' => bool_decide (User.id u' = User.id user)
         | None => false
         end.

(** [query.filter_by(key=value)]. The keyword is looked up on the query's
    joinpoint, not on [Update]: after a [join] it names an attribute of the
    joined class. [Bug], [CVE] and [Package] declare none of the keywords
    this view passes, so the lookup raises there; [column] is the column
    of [Update] the keyword names. *)
Definition Query_filter_by {A} `{EqDecision A} (key : string)
    (column : Update.t → option A) (value : A) (query : Query) : result Query :=
  match joinpoint query with
  | Update_entity => Ok (Query_filter (Compare (eq_ column value)) query)
  | entity => Raise (InvalidRequestError entity key)
  end.

(** The ORM returns each object of a single-entity query once: the rows
    are made unique on the object's identity, first occurrence kept. *)
Fixpoint unique_list {A K} `{EqDecision K} (hashfunc : A → K) (seen : list K) (seq : list A) : list A :=
  match seq with
  | [] => []
  | x :: seq' =>
      if decide (hashfunc x ∈ seen) then unique_list hashfunc seen seq'
      else x :: unique_list hashfunc (hashfunc x :: seen) seq'
  end.

(** Iterating the query: [for u in query]. The rows come in the order of
    the table; the order in which a database returns the rows of a join is
    its own, and nothing below relies on it. *)
Definition Query_iter (query : Query) (db : Store) : list Update.t :=
  unique_list Update.id [] (row_update <$> rows query db).

(** ** The database session

    Code that talks to the store threads it through; an exception leaves
    the store as it was when raised. *)
Definition Session (A : Type) : Type := Store → result A * Store.

#[global] Instance Session_ret : MRet Session := λ A a db, (Ok a, db).
#[global] Instance Session_bind : MBind Session := λ A B f m db,
  match m db with
  | (Ok a, db') => f a db'
  | (Raise e, db') => (Raise e, db')
  end.

Definition lift {A} (r : result A) : Session A := λ db, (r, db).

(** Running the SELECT of a query. *)
Definition Query_all (query : Query) : Session (list Update.t) :=
  λ db, (Ok (Query_iter query db), db).

(** ** Serialization *)

Definition UpdateStatus_to_string (s : UpdateStatus) : string :=
  match s with
  | pending => "pending" | testing => "testing" | stable => "stable"
  | obsolete => "obsolete" | unpushed => "unpushed"
  end.

Definition UpdateRequest_to_string (r : UpdateRequest) : string :=
  match r with
  | request_testing => "testing" | request_stable => "stable"
  | request_obsolete => "obsolete" | request_unpush => "unpush"
  end.

Definition UpdateType_to_string (t : UpdateType) : string :=
  match t with
  | bugfix => "bugfix" | enhancement => "enhancement"
  | security => "security" | newpackage => "newpackage"
  end.

Definition nullable {A} (f : A → Json) (v : option A) : Json :=
  match v with Some a => f a | None => JNull end.

(** Modelled from the spec: [Update.__json__] is defined in models.py,
    which is not among the sources. Section 6: the serialization is every
    declared attribute (section 3) plus the nested Build, Bug and CVE
    identifiers. *)
Definition Update__json__ (u : Update.t) : Json :=
  dict [
    ("title", JStr (Update.title u));
    ("status", nullable (λ s, JStr (UpdateStatus_to_string s)) (Update.status u));
    ("request", nullable (λ r, JStr (UpdateRequest_to_string r)) (Update.request u));
    ("type", nullable (λ t, JStr (UpdateType_to_string t)) (Update.type u));
    ("severity", nullable JStr (Update.severity u));
    ("suggest", nullable JStr (Update.suggest u));
    ("notes", nullable JStr (Update.notes u));
    ("locked", nullable JBool (Update.locked u));
    ("critpath", nullable JBool (Update.critpath u));
    ("qa_approved", nullable JBool (Update.qa_approved u));
    ("qa_approval_date", nullable JNum (Update.qa_approval_date u));
    ("releng_approved", nullable JBool (Update.releng_approved u));
    ("releng_approval_date", nullable JNum (Update.releng_approval_date u));
    ("security_approved", nullable JBool (Update.security_approved u));
    ("security_approval_date", nullable JNum (Update.security_approval_date u));
    ("date_submitted", nullable JNum (Update.date_submitted u));
    ("date_modified", nullable JNum (Update.date_modified u));
    ("date_approved", nullable JNum (Update.date_approved u));
    ("date_pushed", nullable JNum (Update.date_pushed u));
    ("pushed", nullable JBool (Update.pushed u));
    ("builds", JArr ((λ b, JStr (Build.nvr b)) <$> Update.builds u));
    ("bugs", JArr ((λ b, JNum (Bug.bug_id b)) <$> Update.bugs u));
    ("cves", JArr ((λ c, JStr (CVE.cve_id c)) <$> Update.cves u))
  ].

(** The attribute names of section 3 and the three nested collections. *)
Definition declared_attributes : list string :=
  ["title"; "status"; "request"; "type"; "severity"; "suggest"; "notes";
   "locked"; "critpath"; "qa_approved"; "qa_approval_date";
   "releng_approved"; "releng_approval_date"; "security_approved";
   "security_approval_date"; "date_submitted"; "date_modified";
   "date_approved"; "date_pushed"; "pushed"; "builds"; "bugs"; "cves"].

Definition member_names (j : Json) : list string :=
  match j with JObj members => fst <$> members | _ => [] end.

(** ** GET /updates/

    [request.validated] after [ListUpdateSchema] and the validators
    [validate_releases], [validate_enums], [validate_username]: every
    recognized option is typed; [data.get(key)] is [None] when the option
    was not given. *)
Module ListUpdate.
Record t := mk {
  approved_since : option datetime;
  bugs : option (list Z);
  critpath : option bool;
  cves : option (list string);
  locked : option bool;
  modified_since : option datetime;
  packages : option (list string);
  pushed : option bool;
  pushed_since : option datetime;
  qa_approved : option bool;
  qa_approved_since : option datetime;
  releases : option (list Release.t);
  releng_approved : option bool;
  releng_approved_since : option datetime;
  request : option UpdateRequest;
  security_approved : option bool;
  security_approved_since : option datetime;
  severity : option UpdateSeverity;
  status : option UpdateStatus;
  submitted_since : option datetime;
  suggest : option UpdateSuggestion;
  type : option UpdateType;
  user : option User.t
}.
End ListUpdate.

(** [if value is not None: query = then_(value, query)] *)
Definition if_not_None {A} (value : option A) (then_ : A → Query → result Query)
    (query : Query) : result Query :=
  match value with
  | Some v => then_ v query
  | None => Ok query
  end.

(** Lines 28 to 123 of [query_updates]: the composition of the query. *)
Definition compose (data : ListUpdate.t) : result Query :=
  let query := db_query_Update in
  query ← if_not_None (ListUpdate.approved_since data) (λ approved_since query,
    Ok (Query_filter (Compare (ge Update.date_approved approved_since)) query)) query;
  query ← if_not_None (ListUpdate.bugs data) (λ bugs query,
    let query := Query_join Update_bugs query in
    Ok (Query_filter (or_ (Bug_bug_id_eq <$> bugs)) query)) query;
  query ← if_not_None (ListUpdate.critpath data) (λ critpath query,
    Query_filter_by "critpath" Update.critpath critpath query) query;
  query ← if_not_None (ListUpdate.cves data) (λ cves query,
    let query := Query_join Update_cves query in
    Ok (Query_filter (or_ (CVE_cve_id_eq <$> cves)) query)) query;
  query ← if_not_None (ListUpdate.locked data) (λ locked query,
    Query_filter_by "locked" Update.locked locked query) query;
  query ← if_not_None (ListUpdate.modified_since data) (λ modified_since query,
    Ok (Query_filter (Compare (ge Update.date_modified modified_since)) query)) query;
  query ← if_not_None (ListUpdate.packages data) (λ packages query,
    let query := Query_join Build_package (Query_join Update_builds query) in
    Ok (Query_filter (or_ (Package_name_eq <$> packages)) query)) query;
  query ← if_not_None (ListUpdate.pushed data) (λ pushed query,
    Query_filter_by "pushed" Update.pushed pushed query) query;
  query ← if_not_None (ListUpdate.pushed_since data) (λ pushed_since query,
    Ok (Query_filter (Compare (ge Update.date_pushed pushed_since)) query)) query;
  query ← if_not_None (ListUpdate.qa_approved data) (λ qa_approved query,
    Query_filter_by "qa_approved" Update.qa_approved qa_approved query) query;
  query ← if_not_None (ListUpdate.qa_approved_since data) (λ qa_approved_since query,
    Ok (Query_filter (Compare (ge Update.qa_approval_date qa_approved_since)) query)) query;
  query ← if_not_None (ListUpdate.releases data) (λ releases query,
    Ok (Query_filter (or_ (Update_release_eq <$> releases)) query)) query;
  query ← if_not_None (ListUpdate.releng_approved data) (λ releng_approved query,
    Query_filter_by "releng_approved" Update.releng_approved releng_approved query) query;
  query ← if_not_None (ListUpdate.releng_approved_since data) (λ releng_approved_since query,
    Ok (Query_filter (Compare (ge Update.releng_approval_date releng_approved_since)) query)) query;
  query ← if_not_None (ListUpdate.request data) (λ req query,
    Query_filter_by "request" Update.request req query) query;
  query ← if_not_None (ListUpdate.security_approved data) (λ security_approved query,
    Query_filter_by "security_approved" Update.security_approved security_approved query) query;
  query ← if_not_None (ListUpdate.security_approved_since data) (λ security_approved_since query,
    Ok (Query_filter (Compare (ge Update.security_approval_date security_approved_since)) query)) query;
  query ← if_not_None (ListUpdate.severity data) (λ severity query,
    Query_filter_by "severity" Update.severity severity query) query;
  query ← if_not_None (ListUpdate.status data) (λ status query,
    Query_filter_by "status" Update.status status query) query;
  query ← if_not_None (ListUpdate.submitted_since data) (λ submitted_since query,
    Ok (Query_filter (Compare (ge Update.date_submitted submitted_since)) query)) query;
  query ← if_not_None (ListUpdate.suggest data) (λ suggest query,
    Query_filter_by "suggest" Update.suggest suggest query) query;
  query ← if_not_None (ListUpdate.type data) (λ type query,
    Query_filter_by "type" Update.type type query) query;
  query ← if_not_None (ListUpdate.user data) (λ user query,
    Ok (Query_filter (Compare (Update_user_eq user)) query)) query;
  Ok query.

(** The view: compose the query, iterate it, serialize each update
    (line 125). *)
Definition query_updates (data : ListUpdate.t) : Session Json :=
  query ← lift (compose data);
  found ← Query_all query;
  mret (dict [("updates", JArr (Update__json__ <$> found))]).

(** * POST /updates/ *)

(** An entry of [request.errors]: [request.errors.add(location, name,
    description)]. *)
Record Error := mkError {
  location : string;
  name : string;
  description : string
}.

(** [request.validated] after [SaveUpdateSchema]. *)
Module SaveUpdate.
Record t := mk {
  builds : list string;
  edited : option string;
  type : option UpdateType;
  request : option UpdateRequest;
  severity : option UpdateSeverity;
  suggest : option UpdateSuggestion;
  notes : option string;
  bugs : list Z
}.
End SaveUpdate.

(** The request object a validator or the view receives: the session, the
    validated data, the errors recorded so far, the requesting user, the
    reading of the clock, and the builds the validators resolved. *)
Record Request := mkRequest {
  db : Store;
  validated : SaveUpdate.t;
  errors : list Error;
  user : User.t;
  now : datetime;
  buildinfo : list (string * Build.t)
}.

Definition set_db (db' : Store) (request : Request) : Request :=
  mkRequest db' (validated request) (errors request) (user request) (now request)
    (buildinfo request).

(** [request.errors.add(location, name, description)] *)
Definition errors_add (location name description : string) (request : Request) : Request :=
  mkRequest (db request) (validated request)
    (errors request ++ [mkError location name description])
    (user request) (now request) (buildinfo request).

(** The truth value of [data.get('edited')]: [None] and the empty string
    are false. *)
Definition truthy (value : option string) : bool :=
  match value with
  | Some s => negb (String.eqb s "")
  | None => false
  end.

Section new_update.
(** [Update.edit] and [Update.new] of models.py, which run in the
    session of the request and return the update or raise. *)
Variables Update_edit Update_new : Request → SaveUpdate.t → Session Update.t.

(** The body of the [try], lines 143 to 149. *)
Definition create_or_edit (request : Request) : Session Update.t :=
  let data := validated request in
  if truthy (SaveUpdate.edited data)
  then Update_edit request data
  else Update_new request data.

(** The view returns the request as the run left it and its return
    value, [None] after the bare [except]. *)
Definition new_update (request : Request) : Request * option Json :=
  match create_or_edit request (db request) with
  | (Ok up, db') => (set_db db' request, Some (Update__json__ up))
  | (Raise _, db') =>
      (errors_add "body" "builds" "Unable to create update" (set_db db' request), None)
  end.
End new_update.

(** ** The cornice service wrapper *)

(** A validator receives the request and may record errors on it and add
    to the validated data. *)
Definition Validator := Request → Request.

(** [for validator in validators: validator(request)] *)
Definition run_validators (validators : list Validator) (request : Request) : Request :=
  foldl (λ request validator, validator request) request validators.

Inductive Response :=
  | rendered (body : option Json)
  | json_error (errors : list Error).

(** The wrapper of a service view: every validator is called, the view is
    called only when no error was recorded, and recorded errors are
    returned through the error handler. *)
Definition call_service (validators : list Validator)
    (view : Request → Request * option Json) (request : Request) : Request * Response :=
  let request := run_validators validators request in
  match errors request with
  | [] =>
      let '(request, response) := view request in
      match errors request with
      | [] => (request, rendered response)
      | errors => (request, json_error errors)
      end
  | errors => (request, json_error errors)
  end.

Section updates_post.
Variables Update_edit Update_new : Request → SaveUpdate.t → Session Update.t.
(** The validators of validators.py. *)
Variables validate_nvrs validate_version validate_builds validate_uniqueness
  validate_tags validate_acls validate_enums : Validator.

(** The [validators] argument of [@updates.post], lines 129 to 131. *)
Definition new_update_validators : list Validator :=
  [validate_nvrs; validate_version; validate_builds; validate_uniqueness;
   validate_tags; validate_acls; validate_enums].

(** POST /updates/ *)
Definition updates_post (request : Request) : Request * Response :=
  call_service new_update_validators (new_update Update_edit Update_new) request.
End updates_post.

(** ** The update aggregate *)

Fixpoint insert_sorted (s : string) (sorted : list string) : list string :=
  match sorted with
  | [] => [s]
  | t :: rest => if String.leb s t then s :: t :: rest else t :: insert_sorted s rest
  end.

(** Modelled from the spec: the title of an update is not computed in
    views.py. Section 3: the title is derivable from the sorted set of the
    identifiers of its builds; here their sorted, space-separated list. *)
Definition title_of (nvrs : list string) : string :=
  String.concat " " (foldr insert_sorted [] nvrs).

(** The builds the validators resolved for the identifiers, or [None] when
    one of them was not resolved. *)
Definition resolved_builds (request : Request) (nvrs : list string) : option (list Build.t) :=
  mapM (λ nvr, snd <$> find (λ entry, bool_decide (entry.1 = nvr)) (buildinfo request)) nvrs.

(** The requester is the submitter of the update. *)
Definition is_submitter (requester : User.t) (up : Update.t) : bool :=
  match Update.user up with
  | Some submitter => bool_decide (User.id submitter = User.id requester)
  | None => false
  end.

(** The requester is a committer of every package of the builds. *)
Definition is_maintainer (requester : User.t) (builds : list Build.t) : bool :=
  forallb (λ b, match Build.package b with
                | Some p => bool_decide (User.name requester ∈ Package.committers p)
                | None => false
                end) builds.

Definition fresh_id (db : Store) : Z :=
  foldr Z.max 0 (Update.id <$> updates db) + 1.

Definition add_update (up : Update.t) (db : Store) : Store :=
  mkStore (updates db ++ [up]) (releases db) (users db) (packages db).

Definition replace_update (up : Update.t) (db : Store) : Store :=
  mkStore ((λ old, if bool_decide (Update.id old = Update.id up) then up else old)
             <$> updates db)
    (releases db) (users db) (packages db).

(** Modelled from the spec: [Update.new] is defined in models.py, which
    is not among the sources. Section 4.2: allocate a new Update, associate
    all resolved Builds, set [date_submitted = now], default
    [status = pending]; the title is derived and unique (section 3), a
    title already taken is a [ConcurrentConflict] (section 7). The metadata
    of the submission become the attributes of the update and the requester
    its submitter. Nothing is stored when it raises. *)
Definition Update_new (request : Request) (data : SaveUpdate.t) : Session Update.t :=
  λ db,
    match resolved_builds request (SaveUpdate.builds data) with
    | None => (Raise (UpdateError UnknownBuild), db)
    | Some builds =>
        let title := title_of (SaveUpdate.builds data) in
        if bool_decide (title ∈ Update.title <$> updates db)
        then (Raise (UpdateError ConcurrentConflict), db)
        else
          let up :=
            Update.mk (fresh_id db) title (Some pending) (SaveUpdate.request data)
              (SaveUpdate.type data) (SaveUpdate.severity data) (SaveUpdate.suggest data)
              (SaveUpdate.notes data) (Some false) (Some false) (Some false)
              (Some false) None (Some false) None (Some false) None
              (Some (now request)) None None None
              builds (Bug.mk <$> SaveUpdate.bugs data) [] None (Some (user request)) in
          (Ok up, add_update up db)
    end.

(** Modelled from the spec: [Update.edit] is defined in models.py, which
    is not among the sources. Section 4.2: load the existing Update by the
    title in [edited] ([NotFound] when there is none, section 7), require
    the requester to be its submitter or an ACL-authorized maintainer
    ([Forbidden] otherwise), apply the field-level updates (builds list,
    notes, type, bugs, request) and set [date_modified = now]; the title is
    derived again from the builds (section 9). Nothing is stored when it
    raises. *)
Definition Update_edit (request : Request) (data : SaveUpdate.t) : Session Update.t :=
  λ db,
    match SaveUpdate.edited data
            ≫= λ title, find (λ up, bool_decide (Update.title up = title)) (updates db) with
    | None => (Raise (UpdateError NotFound), db)
    | Some old =>
        match resolved_builds request (SaveUpdate.builds data) with
        | None => (Raise (UpdateError UnknownBuild), db)
        | Some builds =>
            if is_submitter (user request) old || is_maintainer (user request) builds
            then
              let up :=
                Update.mk (Update.id old) (title_of (SaveUpdate.builds data))
                  (Update.status old) (SaveUpdate.request data) (SaveUpdate.type data)
                  (Update.severity old) (Update.suggest old) (SaveUpdate.notes data)
                  (Update.locked old) (Update.critpath old) (Update.pushed old)
                  (Update.qa_approved old) (Update.qa_approval_date old)
                  (Update.releng_approved old) (Update.releng_approval_date old)
                  (Update.security_approved old) (Update.security_approval_date old)
                  (Update.date_submitted old) (Some (now request))
                  (Update.date_approved old) (Update.date_pushed old)
                  builds (Bug.mk <$> SaveUpdate.bugs data) (Update.cves old)
                  (Update.release old) (Update.user old) in
              (Ok up, replace_update up db)
            else (Raise (UpdateError Forbidden), db)
        end
    end.

(** * The vocabulary of the properties *)

(** The updates a run of the view returned, none when it raised. *)
Definition selected (data : ListUpdate.t) (db : Store) : list Update.t :=
  match compose data with
  | Ok query => Query_iter query db
  | Raise _ => []
  end.

(** ** What the rows of a query are

    At every point of [compose] the rows of the query are the rows over
    the updates of the store that satisfy an accumulated criterion on the
    update and carry, for each join made so far, one linked entity that
    satisfies the criterion on it. *)

Definition bug_slot (bugs : option (list Z)) (row : Row) : Prop :=
  match bugs with
  | None => row_bug row = None
  | Some ids => ∃ b, row_bug row = Some b ∧ b ∈ Update.bugs (row_update row)
                  ∧ (ids = [] ∨ Bug.bug_id b ∈ ids)
  end.

Definition cve_slot (cves : option (list string)) (row : Row) : Prop :=
  match cves with
  | None => row_cve row = None
  | Some ids => ∃ c, row_cve row = Some c ∧ c ∈ Update.cves (row_update row)
                  ∧ (ids = [] ∨ CVE.cve_id c ∈ ids)
  end.

Definition package_slot (packages : option (list string)) (row : Row) : Prop :=
  match packages with
  | None => row_build row = None ∧ row_package row = None
  | Some names => ∃ b p, row_build row = Some b ∧ row_package row = Some p
                  ∧ b ∈ Update.builds (row_update row) ∧ Build.package b = Some p
                  ∧ (names = [] ∨ Package.name p ∈ names)
  end.

Record describes (q : Query) (jp : Entity) (U : Update.t → Prop)
    (jb : option (list Z)) (jc jk : option (list string)) : Prop := {
  describes_joinpoint : joinpoint q = jp;
  describes_rows : ∀ db row,
    row ∈ rows q db ↔
      row_update row ∈ updates db ∧ U (row_update row)
      ∧ bug_slot jb row ∧ cve_slot jc row ∧ package_slot jk row
}.

(** The outcome of a step that may raise: with [ok] it returns a query
    with property [D], without it a keyword was looked up on a joined
    class. *)
Definition outcome (r : result Query) (ok : bool) (D : Query → Prop) : Prop :=
  if ok then ∃ q, r = Ok q ∧ D q
  else ∃ entity key, r = Raise (InvalidRequestError entity key) ∧ entity ≠ Update_entity.

(** [filter_by] on the option [o] finds its column when the option is not
    given or the joinpoint is still [Update]. *)
Definition resolvable {A} (jp : Entity) (o : option A) : bool :=
  match o with
  | None => true
  | Some _ => bool_decide (jp = Update_entity)
  end.

(** [date >= value]; a NULL date is not [>=] anything. *)
Definition since (column : option datetime) (value : datetime) : Prop :=
  ∃ d, column = Some d ∧ value ≤ d.

Definition release_is (u : Update.t) (r : Release.t) : Prop :=
  ∃ r', Update.release u = Some r' ∧ Release.id r' = Release.id r.

Definition user_is (u : Update.t) (user : User.t) : Prop :=
  ∃ u', Update.user u = Some u' ∧ User.id u' = User.id user.

(** ** The outcome of [compose] *)

(** The joinpoint of the query after each of the three blocks that join. *)
Definition joinpoint_after_bugs (data : ListUpdate.t) : Entity :=
  match ListUpdate.bugs data with Some _ => Bug_entity | None => Update_entity end.

Definition joinpoint_after_cves (data : ListUpdate.t) : Entity :=
  match ListUpdate.cves data with Some _ => CVE_entity | None => joinpoint_after_bugs data end.

Definition joinpoint_after_packages (data : ListUpdate.t) : Entity :=
  match ListUpdate.packages data with
  | Some _ => Package_entity
  | None => joinpoint_after_cves data
  end.

(** Every [filter_by] of the run finds its column: each exact-match option
    that is given comes before every join that is made. *)
Definition filter_by_resolves (data : ListUpdate.t) : bool :=
  resolvable (joinpoint_after_bugs data) (ListUpdate.critpath data)
  && resolvable (joinpoint_after_cves data) (ListUpdate.locked data)
  && resolvable (joinpoint_after_packages data) (ListUpdate.pushed data)
  && resolvable (joinpoint_after_packages data) (ListUpdate.qa_approved data)
  && resolvable (joinpoint_after_packages data) (ListUpdate.releng_approved data)
  && resolvable (joinpoint_after_packages data) (ListUpdate.request data)
  && resolvable (joinpoint_after_packages data) (ListUpdate.security_approved data)
  && resolvable (joinpoint_after_packages data) (ListUpdate.severity data)
  && resolvable (joinpoint_after_packages data) (ListUpdate.status data)
  && resolvable (joinpoint_after_packages data) (ListUpdate.suggest data)
  && resolvable (joinpoint_after_packages data) (ListUpdate.type data).

(** The restrictions on the columns of the update itself. *)
Definition update_criteria (data : ListUpdate.t) (u : Update.t) : Prop :=
  (∀ v, ListUpdate.approved_since data = Some v → since (Update.date_approved u) v)
  ∧ (∀ v, ListUpdate.critpath data = Some v → Update.critpath u = Some v)
  ∧ (∀ v, ListUpdate.locked data = Some v → Update.locked u = Some v)
  ∧ (∀ v, ListUpdate.modified_since data = Some v → since (Update.date_modified u) v)
  ∧ (∀ v, ListUpdate.pushed data = Some v → Update.pushed u = Some v)
  ∧ (∀ v, ListUpdate.pushed_since data = Some v → since (Update.date_pushed u) v)
  ∧ (∀ v, ListUpdate.qa_approved data = Some v → Update.qa_approved u = Some v)
  ∧ (∀ v, ListUpdate.qa_approved_since data = Some v → since (Update.qa_approval_date u) v)
  ∧ (∀ rs, ListUpdate.releases data = Some rs → rs = [] ∨ ∃ r, r ∈ rs ∧ release_is u r)
  ∧ (∀ v, ListUpdate.releng_approved data = Some v → Update.releng_approved u = Some v)
  ∧ (∀ v, ListUpdate.releng_approved_since data = Some v →
       since (Update.releng_approval_date u) v)
  ∧ (∀ v, ListUpdate.request data = Some v → Update.request u = Some v)
  ∧ (∀ v, ListUpdate.security_approved data = Some v → Update.security_approved u = Some v)
  ∧ (∀ v, ListUpdate.security_approved_since data = Some v →
       since (Update.security_approval_date u) v)
  ∧ (∀ v, ListUpdate.severity data = Some v → Update.severity u = Some v)
  ∧ (∀ v, ListUpdate.status data = Some v → Update.status u = Some v)
  ∧ (∀ v, ListUpdate.submitted_since data = Some v → since (Update.date_submitted u) v)
  ∧ (∀ v, ListUpdate.suggest data = Some v → Update.suggest u = Some v)
  ∧ (∀ v, ListUpdate.type data = Some v → Update.type u = Some v)
  ∧ (∀ v, ListUpdate.user data = Some v → user_is u v).

(** ** The restriction on the updates the view returns *)

(** Linked, through the join, to an entity whose key is listed; when
    nothing is listed the join alone restricts. *)
Definition joined_to_any {B K} (linked : list B) (key : B → K) (listed : list K) : Prop :=
  ∃ b, b ∈ linked ∧ (listed = [] ∨ key b ∈ listed).

(** The packages of the builds of an update. *)
Definition Update_packages (u : Update.t) : list Package.t :=
  omap Build.package (Update.builds u).

(** The restriction the composed query puts on an update, option by
    option in the order of the view. *)
Definition composed_restriction (data : ListUpdate.t) (u : Update.t) : Prop :=
  (∀ v, ListUpdate.approved_since data = Some v → since (Update.date_approved u) v)
  ∧ (∀ ids, ListUpdate.bugs data = Some ids →
       joined_to_any (Update.bugs u) Bug.bug_id ids)
  ∧ (∀ v, ListUpdate.critpath data = Some v → Update.critpath u = Some v)
  ∧ (∀ ids, ListUpdate.cves data = Some ids →
       joined_to_any (Update.cves u) CVE.cve_id ids)
  ∧ (∀ v, ListUpdate.locked data = Some v → Update.locked u = Some v)
  ∧ (∀ v, ListUpdate.modified_since data = Some v → since (Update.date_modified u) v)
  ∧ (∀ names, ListUpdate.packages data = Some names →
       joined_to_any (Update_packages u) Package.name names)
  ∧ (∀ v, ListUpdate.pushed data = Some v → Update.pushed u = Some v)
  ∧ (∀ v, ListUpdate.pushed_since data = Some v → since (Update.date_pushed u) v)
  ∧ (∀ v, ListUpdate.qa_approved data = Some v → Update.qa_approved u = Some v)
  ∧ (∀ v, ListUpdate.qa_approved_since data = Some v → since (Update.qa_approval_date u) v)
  ∧ (∀ rs, ListUpdate.releases data = Some rs → rs = [] ∨ ∃ r, r ∈ rs ∧ release_is u r)
  ∧ (∀ v, ListUpdate.releng_approved data = Some v → Update.releng_approved u = Some v)
  ∧ (∀ v, ListUpdate.releng_approved_since data = Some v → since (Update.releng_approval_date u) v)
  ∧ (∀ v, ListUpdate.request data = Some v → Update.request u = Some v)
  ∧ (∀ v, ListUpdate.security_approved data = Some v → Update.security_approved u = Some v)
  ∧ (∀ v, ListUpdate.security_approved_since data = Some v → since (Update.security_approval_date u) v)
  ∧ (∀ v, ListUpdate.severity data = Some v → Update.severity u = Some v)
  ∧ (∀ v, ListUpdate.status data = Some v → Update.status u = Some v)
  ∧ (∀ v, ListUpdate.submitted_since data = Some v → since (Update.date_submitted u) v)
  ∧ (∀ v, ListUpdate.suggest data = Some v → Update.suggest u = Some v)
  ∧ (∀ v, ListUpdate.type data = Some v → Update.type u = Some v)
  ∧ (∀ v, ListUpdate.user data = Some v → user_is u v).

(** Linked to an entity whose key is any of the listed ones. *)
Definition matches_any {B K} (linked : list B) (key : B → K) (listed : list K) : Prop :=
  ∃ b, b ∈ linked ∧ key b ∈ listed.

(** The restriction as the table of section 4.3 of the specification
    words it: exact match, date [>=] value, or a match with ANY listed id,
    name or release. *)
Definition table_restriction (data : ListUpdate.t) (u : Update.t) : Prop :=
  (∀ v, ListUpdate.approved_since data = Some v → since (Update.date_approved u) v)
  ∧ (∀ ids, ListUpdate.bugs data = Some ids →
       matches_any (Update.bugs u) Bug.bug_id ids)
  ∧ (∀ v, ListUpdate.critpath data = Some v → Update.critpath u = Some v)
  ∧ (∀ ids, ListUpdate.cves data = Some ids →
       matches_any (Update.cves u) CVE.cve_id ids)
  ∧ (∀ v, ListUpdate.locked data = Some v → Update.locked u = Some v)
  ∧ (∀ v, ListUpdate.modified_since data = Some v → since (Update.date_modified u) v)
  ∧ (∀ names, ListUpdate.packages data = Some names →
       matches_any (Update_packages u) Package.name names)
  ∧ (∀ v, ListUpdate.pushed data = Some v → Update.pushed u = Some v)
  ∧ (∀ v, ListUpdate.pushed_since data = Some v → since (Update.date_pushed u) v)
  ∧ (∀ v, ListUpdate.qa_approved data = Some v → Update.qa_approved u = Some v)
  ∧ (∀ v, ListUpdate.qa_approved_since data = Some v → since (Update.qa_approval_date u) v)
  ∧ (∀ rs, ListUpdate.releases data = Some rs → ∃ r, r ∈ rs ∧ release_is u r)
  ∧ (∀ v, ListUpdate.releng_approved data = Some v → Update.releng_approved u = Some v)
  ∧ (∀ v, ListUpdate.releng_approved_since data = Some v → since (Update.releng_approval_date u) v)
  ∧ (∀ v, ListUpdate.request data = Some v → Update.request u = Some v)
  ∧ (∀ v, ListUpdate.security_approved data = Some v → Update.security_approved u = Some v)
  ∧ (∀ v, ListUpdate.security_approved_since data = Some v → since (Update.security_approval_date u) v)
  ∧ (∀ v, ListUpdate.severity data = Some v → Update.severity u = Some v)
  ∧ (∀ v, ListUpdate.status data = Some v → Update.status u = Some v)
  ∧ (∀ v, ListUpdate.submitted_since data = Some v → since (Update.date_submitted u) v)
  ∧ (∀ v, ListUpdate.suggest data = Some v → Update.suggest u = Some v)
  ∧ (∀ v, ListUpdate.type data = Some v → Update.type u = Some v)
  ∧ (∀ v, ListUpdate.user data = Some v → user_is u v).

(** No collection-valued option is given as an empty collection. *)
Definition collections_nonempty (data : ListUpdate.t) : Prop :=
  ListUpdate.bugs data ≠ Some [] ∧ ListUpdate.cves data ≠ Some []
  ∧ ListUpdate.packages data ≠ Some [] ∧ ListUpdate.releases data ≠ Some [].

(** A request without any option. *)
Definition no_options : ListUpdate.t :=
  ListUpdate.mk None None None None None None None None None None None None None None None None None None None None None None None.

(** [data] with the option [bugs] set to [value]. *)
Definition with_bugs (value : option (list Z)) (data : ListUpdate.t) : ListUpdate.t :=
  ListUpdate.mk (ListUpdate.approved_since data) value (ListUpdate.critpath data)
    (ListUpdate.cves data) (ListUpdate.locked data) (ListUpdate.modified_since data)
    (ListUpdate.packages data) (ListUpdate.pushed data) (ListUpdate.pushed_since data)
    (ListUpdate.qa_approved data) (ListUpdate.qa_approved_since data)
    (ListUpdate.releases data) (ListUpdate.releng_approved data)
    (ListUpdate.releng_approved_since data) (ListUpdate.request data)
    (ListUpdate.security_approved data) (ListUpdate.security_approved_since data)
    (ListUpdate.severity data) (ListUpdate.status data) (ListUpdate.submitted_since
    data) (ListUpdate.suggest data) (ListUpdate.type data) (ListUpdate.user data).

(** [data] with the option [cves] set to [value]. *)
Definition with_cves (value : option (list string)) (data : ListUpdate.t) : ListUpdate.t :=
  ListUpdate.mk (ListUpdate.approved_since data) (ListUpdate.bugs data)
    (ListUpdate.critpath data) value (ListUpdate.locked data) (ListUpdate.modified_since
    data) (ListUpdate.packages data) (ListUpdate.pushed data) (ListUpdate.pushed_since
    data) (ListUpdate.qa_approved data) (ListUpdate.qa_approved_since data)
    (ListUpdate.releases data) (ListUpdate.releng_approved data)
    (ListUpdate.releng_approved_since data) (ListUpdate.request data)
    (ListUpdate.security_approved data) (ListUpdate.security_approved_since data)
    (ListUpdate.severity data) (ListUpdate.status data) (ListUpdate.submitted_since
    data) (ListUpdate.suggest data) (ListUpdate.type data) (ListUpdate.user data).

(** [data] with the option [packages] set to [value]. *)
Definition with_packages (value : option (list string)) (data : ListUpdate.t) : ListUpdate.t :=
  ListUpdate.mk (ListUpdate.approved_since data) (ListUpdate.bugs data)
    (ListUpdate.critpath data) (ListUpdate.cves data) (ListUpdate.locked data)
    (ListUpdate.modified_since data) value (ListUpdate.pushed data)
    (ListUpdate.pushed_since data) (ListUpdate.qa_approved data)
    (ListUpdate.qa_approved_since data) (ListUpdate.releases data)
    (ListUpdate.releng_approved data) (ListUpdate.releng_approved_since data)
    (ListUpdate.request data) (ListUpdate.security_approved data)
    (ListUpdate.security_approved_since data) (ListUpdate.severity data)
    (ListUpdate.status data) (ListUpdate.submitted_since data) (ListUpdate.suggest data)
    (ListUpdate.type data) (ListUpdate.user data).

(** [data] with the option [critpath] set to [value]. *)
Definition with_critpath (value : option bool) (data : ListUpdate.t) : ListUpdate.t :=
  ListUpdate.mk (ListUpdate.approved_since data) (ListUpdate.bugs data) value
    (ListUpdate.cves data) (ListUpdate.locked data) (ListUpdate.modified_since data)
    (ListUpdate.packages data) (ListUpdate.pushed data) (ListUpdate.pushed_since data)
    (ListUpdate.qa_approved data) (ListUpdate.qa_approved_since data)
    (ListUpdate.releases data) (ListUpdate.releng_approved data)
    (ListUpdate.releng_approved_since data) (ListUpdate.request data)
    (ListUpdate.security_approved data) (ListUpdate.security_approved_since data)
    (ListUpdate.severity data) (ListUpdate.status data) (ListUpdate.submitted_since
    data) (ListUpdate.suggest data) (ListUpdate.type data) (ListUpdate.user data).

(** The recognized options. *)
Inductive Option_name :=
  | opt_approved_since | opt_bugs | opt_critpath | opt_cves
  | opt_locked | opt_modified_since | opt_packages | opt_pushed
  | opt_pushed_since | opt_qa_approved | opt_qa_approved_since | opt_releases
  | opt_releng_approved | opt_releng_approved_since | opt_request | opt_security_approved
  | opt_security_approved_since | opt_severity | opt_status | opt_submitted_since
  | opt_suggest | opt_type | opt_user.

#[global] Instance Option_name_eq_dec : EqDecision Option_name.
Proof. solve_decision. Defined.

(** The option is not given. *)
Definition absent (name : Option_name) (data : ListUpdate.t) : Prop :=
  match name with
  | opt_approved_since => ListUpdate.approved_since data = None
  | opt_bugs => ListUpdate.bugs data = None
  | opt_critpath => ListUpdate.critpath data = None
  | opt_cves => ListUpdate.cves data = None
  | opt_locked => ListUpdate.locked data = None
  | opt_modified_since => ListUpdate.modified_since data = None
  | opt_packages => ListUpdate.packages data = None
  | opt_pushed => ListUpdate.pushed data = None
  | opt_pushed_since => ListUpdate.pushed_since data = None
  | opt_qa_approved => ListUpdate.qa_approved data = None
  | opt_qa_approved_since => ListUpdate.qa_approved_since data = None
  | opt_releases => ListUpdate.releases data = None
  | opt_releng_approved => ListUpdate.releng_approved data = None
  | opt_releng_approved_since => ListUpdate.releng_approved_since data = None
  | opt_request => ListUpdate.request data = None
  | opt_security_approved => ListUpdate.security_approved data = None
  | opt_security_approved_since => ListUpdate.security_approved_since data = None
  | opt_severity => ListUpdate.severity data = None
  | opt_status => ListUpdate.status data = None
  | opt_submitted_since => ListUpdate.submitted_since data = None
  | opt_suggest => ListUpdate.suggest data = None
  | opt_type => ListUpdate.type data = None
  | opt_user => ListUpdate.user data = None
  end.

(** Both requests give the option the same value, or both do not give it. *)
Definition agree (name : Option_name) (data data' : ListUpdate.t) : Prop :=
  match name with
  | opt_approved_since => ListUpdate.approved_since data = ListUpdate.approved_since data'
  | opt_bugs => ListUpdate.bugs data = ListUpdate.bugs data'
  | opt_critpath => ListUpdate.critpath data = ListUpdate.critpath data'
  | opt_cves => ListUpdate.cves data = ListUpdate.cves data'
  | opt_locked => ListUpdate.locked data = ListUpdate.locked data'
  | opt_modified_since => ListUpdate.modified_since data = ListUpdate.modified_since data'
  | opt_packages => ListUpdate.packages data = ListUpdate.packages data'
  | opt_pushed => ListUpdate.pushed data = ListUpdate.pushed data'
  | opt_pushed_since => ListUpdate.pushed_since data = ListUpdate.pushed_since data'
  | opt_qa_approved => ListUpdate.qa_approved data = ListUpdate.qa_approved data'
  | opt_qa_approved_since => ListUpdate.qa_approved_since data = ListUpdate.qa_approved_since data'
  | opt_releases => ListUpdate.releases data = ListUpdate.releases data'
  | opt_releng_approved => ListUpdate.releng_approved data = ListUpdate.releng_approved data'
  | opt_releng_approved_since => ListUpdate.releng_approved_since data = ListUpdate.releng_approved_since data'
  | opt_request => ListUpdate.request data = ListUpdate.request data'
  | opt_security_approved => ListUpdate.security_approved data = ListUpdate.security_approved data'
  | opt_security_approved_since => ListUpdate.security_approved_since data = ListUpdate.security_approved_since data'
  | opt_severity => ListUpdate.severity data = ListUpdate.severity data'
  | opt_status => ListUpdate.status data = ListUpdate.status data'
  | opt_submitted_since => ListUpdate.submitted_since data = ListUpdate.submitted_since data'
  | opt_suggest => ListUpdate.suggest data = ListUpdate.suggest data'
  | opt_type => ListUpdate.type data = ListUpdate.type data'
  | opt_user => ListUpdate.user data = ListUpdate.user data'
  end.

(** [data'] is [data] with one more option: an option absent from [data]
    is set, every other option is as in [data]. *)
Definition adds_one_option (data data' : ListUpdate.t) : Prop :=
  ∃ name, absent name data ∧ ¬ absent name data'
          ∧ ∀ other, other ≠ name → agree other data data'.

(** [data'] gives every option [data] gives, with the same value. *)
Definition extends (data data' : ListUpdate.t) : Prop :=
  ∀ name, absent name data ∨ agree name data data'.

(** The titles of the updates a run returned. *)
Definition titles (found : list Update.t) : gset string :=
  list_to_set (Update.title <$> found).

(** The view without the serialization: the updates it finds. *)
Definition matching_updates (data : ListUpdate.t) : Session (list Update.t) :=
  query ← lift (compose data);
  Query_all query.

Definition found_titles (r : result (list Update.t)) : gset string :=
  match r with
  | Ok found => titles found
  | Raise _ => ∅
  end.

(** ** A small store *)

Definition F20 : Release.t := Release.mk 20 "F20" "f20-updates-candidate".
Definition F21 : Release.t := Release.mk 21 "F21" "f21-updates-candidate".
Definition alice : User.t := User.mk 1 "alice".
Definition bob : User.t := User.mk 2 "bob".
Definition foo : Package.t := Package.mk "foo" ["alice"].
Definition bar : Package.t := Package.mk "bar" ["bob"].

Definition sample_update (id : Z) (title : string) (status : UpdateStatus)
    (type : UpdateType) (critpath : bool) (release : Release.t) (user : User.t)
    (builds : list Build.t) (bugs : list Bug.t) (cves : list CVE.t) : Update.t :=
  Update.mk id title (Some status) None (Some type) None None None
    (Some false) (Some critpath) (Some false) (Some false) None (Some false) None
    (Some false) None (Some 100) None None None builds bugs cves
    (Some release) (Some user).

Definition foo_update : Update.t :=
  sample_update 1 "foo-1.0-1.fc20" stable security true F20 alice
    [Build.mk "foo-1.0-1.fc20" (Some foo)] [Bug.mk 1234] [CVE.mk "CVE-2014-0001"].

Definition bar_update : Update.t :=
  sample_update 2 "bar-2.0-1.fc20" testing security false F20 bob
    [Build.mk "bar-2.0-1.fc20" (Some bar)] [] [].

Definition baz_update : Update.t :=
  sample_update 3 "baz-0.3-2.fc21" stable bugfix false F21 bob [] [] [].

Definition sample_db : Store :=
  mkStore [foo_update; bar_update; baz_update] [F20; F21] [alice; bob] [foo; bar].

(** [status=stable, releases=[F20], type=security] *)
Definition stable_F20_security : ListUpdate.t :=
  ListUpdate.mk None None None None None None None None None None None
    (Some [F20]) None None None None None None (Some stable) None None
    (Some security) None.

(** [status=stable, releases=[F20], type=security] without the type. *)
Definition stable_F20 : ListUpdate.t :=
  ListUpdate.mk None None None None None None None None None None None
    (Some [F20]) None None None None None None (Some stable) None None
    None None.

(** ** Sample submissions *)

Definition qux_build : Build.t := Build.mk "qux-1.0-1.fc20" (Some foo).

(** An update without builds has the empty title. *)
Definition empty_update : Update.t :=
  sample_update 4 "" pending bugfix false F20 bob [] [] [].

Definition db_with_empty_title : Store :=
  mkStore [foo_update; bar_update; baz_update; empty_update] [F20; F21] [alice; bob]
    [foo; bar].

Definition submission (builds : list string) (edited : option string) : SaveUpdate.t :=
  SaveUpdate.mk builds edited (Some bugfix) None None None (Some "notes") [1234].

Definition sample_request (db : Store) (data : SaveUpdate.t) (user : User.t) : Request :=
  mkRequest db data [] user 200 [("qux-1.0-1.fc20", qux_build);
                                  ("foo-1.0-2.fc20", Build.mk "foo-1.0-2.fc20" (Some foo))].

(** ** Validators and outcomes of the POST

    A validator whose check fails records an error; one whose check
    passes leaves the request as it is. *)
Definition rejecting (name description : string) : Validator :=
  errors_add "body" name description.

Definition accepting : Validator := λ request, request.

(** What the caller can see of a run of the view: the errors recorded and
    the value returned. *)
Definition visible (out : Request * option Json) : list Error * option Json :=
  (errors out.1, out.2).

(** The exception the body of the [try] raises, if it raises. *)
Definition failure (request : Request) : option Exception :=
  match create_or_edit Update_edit Update_new request (db request) with
  | (Raise e, _) => Some e
  | (Ok _, _) => None
  end.

(** The chain of the specification: the first validator that records an
    error ends the run, and the response is its rejection. *)
Definition aborts_at_first_failure (validators : list Validator)
    (view : Request → Request * option Json) (request : Request) : Prop :=
  ∀ (before : list Validator) validator after,
    validators = (before ++ validator :: after)%list →
    errors (run_validators before request) = [] →
    errors (validator (run_validators before request)) ≠ [] →
    call_service validators view request
      = (validator (run_validators before request),
         json_error (errors (validator (run_validators before request)))).

(** [data] with the option [releases] set to [value]. *)
Definition with_releases (value : option (list Release.t)) (data : ListUpdate.t) : ListUpdate.t :=
  ListUpdate.mk (ListUpdate.approved_since data) (ListUpdate.bugs data)
    (ListUpdate.critpath data) (ListUpdate.cves data) (ListUpdate.locked data)
    (ListUpdate.modified_since data) (ListUpdate.packages data) (ListUpdate.pushed data)
    (ListUpdate.pushed_since data) (ListUpdate.qa_approved data)
    (ListUpdate.qa_approved_since data) value
    (ListUpdate.releng_approved data) (ListUpdate.releng_approved_since data)
    (ListUpdate.request data) (ListUpdate.security_approved data)
    (ListUpdate.security_approved_since data) (ListUpdate.severity data)
    (ListUpdate.status data) (ListUpdate.submitted_since data) (ListUpdate.suggest data)
    (ListUpdate.type data) (ListUpdate.user data).

(** * The other views of views.py *)

(** Exceptions of the interpreter and of the koji client that the other
    views can end in. *)
Inductive PyException :=
  | KeyError (key : string)
  | GenericError (message : string).

Inductive attempt (A : Type) :=
  | Returned (a : A)
  | Raised (e : PyException).
Arguments Returned {A} a.
Arguments Raised {A} e.

#[global] Instance attempt_ret : MRet attempt := λ A a, Returned a.
#[global] Instance attempt_bind : MBind attempt := λ A B f m,
  match m with Returned a => f a | Raised e => Raised e end.

(** ** search_pkgs *)

(** An entry of [koji.listPackages()]. *)
Record KojiPackage := mkKojiPackage {
  package_id : Z;
  package_name : string
}.

(** [get_all_packages()], lines 199 to 203, on what the koji session
    lists: [[pkg['package_name'] for pkg in koji.listPackages()]]. *)
Definition get_all_packages (listPackages : list KojiPackage) : list string :=
  package_name <$> listPackages.

(** [term in p] on strings: [term] occurs in [p] as a substring. *)
Fixpoint contains (term p : string) : bool :=
  String.prefix term p
  || match p with
     | EmptyString => false
     | String _ rest => contains term rest
     end.

(** [{'id': p, 'label': p, 'value': p}] *)
Definition autocomplete_entry (p : string) : Json :=
  dict [("id", JStr p); ("label", JStr p); ("value", JStr p)].

(** The list comprehension of line 210: the condition is evaluated for
    each package, and [request.GET['term']] raises [KeyError] there when
    the query string has no [term]. *)
Fixpoint matching_packages (GET : gmap string string) (packages : list string)
    : attempt (list Json) :=
  match packages with
  | [] => Returned []
  | p :: packages =>
      match GET !! "term" with
      | None => Raised (KeyError "term")
      | Some term =>
          found ← matching_packages GET packages;
          Returned (if contains term p then autocomplete_entry p :: found else found)
      end
  end.

(** [search_pkgs(request)], lines 207 to 211. *)
Definition search_pkgs (listPackages : list KojiPackage) (GET : gmap string string)
    : attempt Json :=
  let packages := get_all_packages listPackages in
  found ← matching_packages GET packages;
  Returned (JArr found).

Definition sample_packages : list KojiPackage :=
  [mkKojiPackage 1 "kernel"; mkKojiPackage 2 "python-kernel-tools"; mkKojiPackage 3 "bash"].

(** ** latest_candidates *)

(** A call of the koji client. *)
Inductive KojiCall :=
  | listTagged (tag : string) (package : string) (latest : bool).

(** The information koji returns about a build, a dictionary. *)
Abbreviation BuildInfo := (gmap string string).

(** An entry of the list [multiCall()] returns: a fault dictionary, or a
    list of one element, the value of the call. *)
Inductive MultiCallEntry :=
  | Fault (faultCode : Z) (faultString : string)
  | Single (value : list BuildInfo).

(** The koji client session: in multicall mode the calls are queued
    instead of sent. *)
Record KojiSession := mkKojiSession {
  multicall : bool;
  calls : list KojiCall
}.

Section koji.
(** The answer of the koji hub to a call. *)
Variable hub : KojiCall → MultiCallEntry.

(** [koji.listTagged(...)], its value not used: queued in multicall mode,
    sent at once otherwise. *)
Definition koji_call (call : KojiCall) (koji : KojiSession) : KojiSession :=
  if multicall koji
  then mkKojiSession true (calls koji ++ [call])
  else koji.

(** [koji.multiCall()]: sends the queued calls, leaves multicall mode and
    returns the answers in the order of the calls. *)
Definition koji_multiCall (koji : KojiSession) : attempt (list MultiCallEntry) * KojiSession :=
  if multicall koji
  then (Returned (hub <$> calls koji), mkKojiSession false [])
  else (Raised (GenericError "ClientSession.multicall must be set to True before calling multiCall()"),
        koji).

(** [build and build[0] and build[0][0]] and then [build[0][0]['nvr']]:
    a fault dictionary is true and has no key [0]; the list of one value
    is true, the value is true when it has a build, and the first build
    is true when it is not empty. *)
Definition first_nvr (build : MultiCallEntry) : attempt (option string) :=
  match build with
  | Fault _ _ => Raised (KeyError "0")
  | Single [] => Returned None
  | Single (info :: _) =>
      if decide (info = ∅) then Returned None
      else match info !! "nvr" with
           | Some nvr => Returned (Some nvr)
           | None => Raised (KeyError "nvr")
           end
  end.

(** The loop of lines 230 to 232. *)
Fixpoint collect_nvrs (results : list MultiCallEntry) (result : list string)
    : attempt (list string) :=
  match results with
  | [] => Returned result
  | build :: results =>
      nvr ← first_nvr build;
      collect_nvrs results (match nvr with Some nvr => result ++ [nvr] | None => result end)
  end.

(** The call queued for a release. *)
Definition candidate_call (pkg : string) (release : Release.t) : KojiCall :=
  listTagged (Release.candidate_tag release) pkg true.

(** [latest_candidates(request)], lines 215 to 234, on the parameters of
    the request, the store and the koji session of the request. *)
Definition latest_candidates (params : gmap string string) (db : Store)
    (koji : KojiSession) : attempt Json * KojiSession :=
  let result := [] in
  let pkg := params !! "package" in
  if truthy pkg then
    let pkg := default "" pkg in
    let koji := mkKojiSession true (calls koji) in
    let koji :=
      foldl (λ koji release, koji_call (candidate_call pkg release) koji) koji (releases db) in
    match koji_multiCall koji with
    | (Returned results, koji) =>
        (result ← collect_nvrs results result; Returned (JArr (JStr <$> result)), koji)
    | (Raised e, koji) => (Raised e, koji)
    end
  else (Returned (JArr (JStr <$> result)), koji).
End koji.

(** The nvr the view takes from an answer, when it takes one. *)
Definition latest_nvr (build : MultiCallEntry) : option string :=
  match build with
  | Single (info :: _) => info !! "nvr"
  | _ => None
  end.

(** ** metrics *)

#[global] Instance Release_eq_dec : EqDecision Release.t.
Proof. solve_decision. Defined.

(** The update is of the release, of the type, and stable. *)
Definition stable_update_of (release : Release.t) (type : UpdateType) (u : Update.t) : Prop :=
  Release.id <$> Update.release u = Some (Release.id release)
  ∧ Update.type u = Some type
  ∧ Update.status u = Some stable.

#[global] Instance stable_update_of_dec release type u :
  Decision (stable_update_of release type u).
Proof. unfold stable_update_of. apply _. Defined.

Section metrics.
(** The database's [Release.name LIKE 'F%'] and the column
    [Release.version_int], read through [int(...)]. *)
Variable name_like_F : string → bool.
Variable version_int : Release.t → Z.

(** [db.query(Release).filter(Release.name.like('F%')).all()] *)
Definition metrics_releases (db : Store) : list Release.t :=
  List.filter (λ r, name_like_F (Release.name r)) (releases db).

(** [sorted(releases, cmp=lambda x, y: cmp(int(x.version_int),
    int(y.version_int)))]: by version, releases of the same version in
    the order they had. *)
Fixpoint insert_by_version (x : Release.t) (sorted : list Release.t) : list Release.t :=
  match sorted with
  | [] => [x]
  | y :: rest =>
      if bool_decide (version_int x ≤ version_int y) then x :: y :: rest
      else y :: insert_by_version x rest
  end.

Definition sorted_by_version (releases : list Release.t) : list Release.t :=
  foldr insert_by_version [] releases.

(** [enumerate(seq)] *)
Definition enumerate {A} (seq : list A) : list (Z * A) :=
  imap (λ i x, (Z.of_nat i, x)) seq.

(** The first loop, lines 185 to 187: [ticks]. *)
Definition metrics_ticks (db : Store) : list (Z * string) :=
  (λ '(i, release), (i, Release.name release))
    <$> enumerate (sorted_by_version (metrics_releases db)).

(** [db.query(Update).filter_by(release=release, type=type,
    status=UpdateStatus.stable).count()]: one [filter_by] on the primary
    entity, the conjunction of its three comparisons, and the number of
    rows. *)
Definition count_stable (db : Store) (release : Release.t) (type : UpdateType) : Z :=
  let query := db_query_Update in
  let query := Query_filter (Compare (Update_release_eq release)) query in
  let query := Query_filter (Compare (eq_ Update.type type)) query in
  let query := Query_filter (Compare (eq_ Update.status stable)) query in
  Z.of_nat (length (rows query db)).

(** The inner loop, lines 191 to 194: the points [d] of one update type. *)
Definition metrics_series (db : Store) (type : UpdateType) : list (Z * Z) :=
  (λ '(i, release), (i, count_stable db release type))
    <$> enumerate (metrics_releases db).
End metrics.

(** * Properties of the composed query *)

Lemma existsb_fmap_true {A} (f : A → Comparison) (l : list A) (row : Row) :
  existsb (λ c, c row) (f <$> l) = true ↔ ∃ x, x ∈ l ∧ f x row = true.
Proof.
  induction l as [|a l IH]; simpl.
  - split; [discriminate | intros (x & Hx & _); by apply elem_of_nil in Hx].
  - rewrite orb_true_iff, IH. split.
    + intros [H | (x & Hx & H)]; [exists a | exists x]; split; auto; by constructor.
    + intros (x & Hx & H). apply elem_of_cons in Hx as [-> | Hx]; eauto.
Qed.

Lemma describes_base :
  describes db_query_Update Update_entity (λ _, True) None None None.
Proof.
  split; [done |]. intros db row. simpl. rewrite list_elem_of_fmap. split.
  - intros (u & -> & Hu). simpl. done.
  - intros (Hu & _ & Hb & Hc & Hbd & Hp). exists (row_update row).
    split; [| done]. destruct row; simpl in *; congruence.
Qed.

Lemma describes_proper q jp U U' jb jc jk :
  describes q jp U jb jc jk → (∀ u, U u ↔ U' u) → describes q jp U' jb jc jk.
Proof.
  intros [Hj Hr] HU. split; [done |]. intros db row.
  rewrite Hr, HU. done.
Qed.

Lemma describes_filter q jp U jb jc jk (c : Comparison) (C : Update.t → Prop) :
  describes q jp U jb jc jk →
  (∀ row, c row = true ↔ C (row_update row)) →
  describes (Query_filter (Compare c) q) jp (λ u, U u ∧ C u) jb jc jk.
Proof.
  intros [Hj Hr] Hc. split; [done |]. intros db row. simpl.
  rewrite list_elem_of_filter, Hr, Is_true_true, Hc. tauto.
Qed.

Lemma describes_filter_or {A} q jp U jb jc jk (f : A → Comparison) (l : list A)
    (C : A → Update.t → Prop) :
  describes q jp U jb jc jk →
  (∀ x row, f x row = true ↔ C x (row_update row)) →
  describes (Query_filter (or_ (f <$> l)) q) jp
    (λ u, U u ∧ (l = [] ∨ ∃ x, x ∈ l ∧ C x u)) jb jc jk.
Proof.
  intros [Hj Hr] Hc. destruct l as [|a l].
  - simpl. split; [done |]. intros db row. rewrite Hr. intuition.
  - split; [done |]. intros db row.
    change (rows (Query_filter (or_ (f <$> a :: l)) q) db)
      with (filter (λ row, holds (or_ (f <$> a :: l)) row) (rows q db)).
    rewrite list_elem_of_filter, Hr, Is_true_true.
    unfold holds. rewrite existsb_fmap_true. split.
    + intros ((x & Hx & Hfx) & Hu & HU & Hs). repeat split; try tauto.
      right. exists x. split; [done |]. by apply Hc.
    + intros (Hu & (HU & [? | (x & Hx & HC)]) & Hs); [done |].
      split; [| tauto]. exists x. split; [done |]. by apply Hc.
Qed.

Lemma joinpoint_filter criterion q :
  joinpoint (Query_filter criterion q) = joinpoint q.
Proof. destruct criterion as [c | [|c l]]; done. Qed.

Lemma rows_filter_or (l : list Comparison) q db row :
  row ∈ rows (Query_filter (or_ l) q) db ↔
    row ∈ rows q db ∧ (l = [] ∨ existsb (λ c, c row) l = true).
Proof.
  destruct l as [|c l].
  - simpl. intuition.
  - change (rows (Query_filter (or_ (c :: l)) q) db)
      with (filter (λ row, holds (or_ (c :: l)) row) (rows q db)).
    rewrite list_elem_of_filter, Is_true_true. unfold holds. intuition congruence.
Qed.

Lemma rows_join_bugs q jp U jc jk :
  describes q jp U None jc jk → ∀ db row,
  row ∈ rows (Query_join Update_bugs q) db ↔
    row_update row ∈ updates db ∧ U (row_update row)
    ∧ (∃ b, row_bug row = Some b ∧ b ∈ Update.bugs (row_update row))
    ∧ cve_slot jc row ∧ package_slot jk row.
Proof.
  intros [_ Hr] db row. simpl. rewrite list_elem_of_bind. split.
  - intros (row0 & Hin & H0). apply Hr in H0 as (Hu & HU & _ & Hc & Hk).
    simpl in Hin. apply list_elem_of_fmap in Hin as (b & -> & Hb). simpl.
    split_and!; try done. by exists b.
  - intros (Hu & HU & (b & Hrb & Hb) & Hc & Hk).
    exists (mkRow (row_update row) None (row_cve row) (row_build row) (row_package row)).
    split.
    + simpl. apply list_elem_of_fmap. exists b. split; [| done].
      destruct row; simpl in *; congruence.
    + apply Hr. simpl. split_and!; try done.
Qed.

Lemma rows_join_cves q jp U jb jk :
  describes q jp U jb None jk → ∀ db row,
  row ∈ rows (Query_join Update_cves q) db ↔
    row_update row ∈ updates db ∧ U (row_update row) ∧ bug_slot jb row
    ∧ (∃ c, row_cve row = Some c ∧ c ∈ Update.cves (row_update row))
    ∧ package_slot jk row.
Proof.
  intros [_ Hr] db row. simpl. rewrite list_elem_of_bind. split.
  - intros (row0 & Hin & H0). apply Hr in H0 as (Hu & HU & Hb & _ & Hk).
    simpl in Hin. apply list_elem_of_fmap in Hin as (c & -> & Hc). simpl.
    split_and!; try done. by exists c.
  - intros (Hu & HU & Hb & (c & Hrc & Hc) & Hk).
    exists (mkRow (row_update row) (row_bug row) None (row_build row) (row_package row)).
    split.
    + simpl. apply list_elem_of_fmap. exists c. split; [| done].
      destruct row; simpl in *; congruence.
    + apply Hr. simpl. split_and!; try done.
Qed.

Lemma rows_join_packages q jp U jb jc :
  describes q jp U jb jc None → ∀ db row,
  row ∈ rows (Query_join Build_package (Query_join Update_builds q)) db ↔
    row_update row ∈ updates db ∧ U (row_update row) ∧ bug_slot jb row
    ∧ cve_slot jc row
    ∧ (∃ b p, row_build row = Some b ∧ row_package row = Some p
         ∧ b ∈ Update.builds (row_update row) ∧ Build.package b = Some p).
Proof.
  intros [_ Hr] db row. simpl. rewrite list_elem_of_bind. split.
  - intros (row1 & Hin & H1). apply list_elem_of_bind in H1 as (row0 & H1 & H0).
    apply Hr in H0 as (Hu & HU & Hb & Hc & _).
    simpl in H1. apply list_elem_of_fmap in H1 as (b & -> & Hbd).
    simpl in Hin. destruct (Build.package b) as [p|] eqn:Hp; simpl in Hin.
    + apply list_elem_of_singleton in Hin as ->. simpl.
      split_and!; try done. by exists b, p.
    + by apply elem_of_nil in Hin.
  - intros (Hu & HU & Hb & Hc & (b & p & Hrb & Hrp & Hbd & Hp)).
    exists (mkRow (row_update row) (row_bug row) (row_cve row) (Some b) None).
    split.
    + simpl. rewrite Hp. simpl. apply list_elem_of_singleton.
      destruct row; simpl in *; congruence.
    + apply list_elem_of_bind.
      exists (mkRow (row_update row) (row_bug row) (row_cve row) None None).
      split.
      * simpl. apply list_elem_of_fmap. by exists b.
      * apply Hr. simpl. split_and!; try done.
Qed.

(** ** One lemma per kind of step of [compose] *)

Lemma step_since column o q jp U jb jc jk :
  describes q jp U jb jc jk →
  ∃ q', if_not_None o (λ value query,
          Ok (Query_filter (Compare (ge column value)) query)) q = Ok q'
        ∧ describes q' jp (λ u, U u ∧ ∀ v, o = Some v → since (column u) v) jb jc jk.
Proof.
  intros H. destruct o as [value|]; simpl; eexists; (split; [done |]).
  - eapply describes_proper.
    + apply (describes_filter _ _ _ _ _ _ _ (λ u, since (column u) value) H).
      intros row. unfold ge, since. destruct (column (row_update row)) as [d|].
      * rewrite bool_decide_eq_true. naive_solver.
      * naive_solver.
    + naive_solver.
  - eapply describes_proper; [done | naive_solver].
Qed.

Lemma step_filter_by {A} `{EqDecision A} key (column : Update.t → option A) o q jp U jb jc jk :
  describes q jp U jb jc jk →
  outcome (if_not_None o (λ value query, Query_filter_by key column value query) q)
    (resolvable jp o)
    (λ q', describes q' jp (λ u, U u ∧ ∀ v, o = Some v → column u = Some v) jb jc jk).
Proof.
  intros H. destruct o as [value|]; simpl.
  - unfold Query_filter_by. rewrite (describes_joinpoint _ _ _ _ _ _ H).
    case_bool_decide as Hjp.
    + subst jp. eexists. split; [done |].
      eapply describes_proper.
      * apply (describes_filter _ _ _ _ _ _ _ (λ u, column u = Some value) H).
        intros row. unfold eq_. by rewrite bool_decide_eq_true.
      * naive_solver.
    + simpl. destruct jp; try done; by eexists _, _.
  - eexists. split; [done |]. eapply describes_proper; [done | naive_solver].
Qed.

Lemma step_releases o q jp U jb jc jk :
  describes q jp U jb jc jk →
  ∃ q', if_not_None o (λ releases query,
          Ok (Query_filter (or_ (Update_release_eq <$> releases)) query)) q = Ok q'
        ∧ describes q' jp
            (λ u, U u ∧ ∀ rs, o = Some rs → rs = [] ∨ ∃ r, r ∈ rs ∧ release_is u r)
            jb jc jk.
Proof.
  intros H. destruct o as [rs|]; simpl; eexists; (split; [done |]).
  - eapply describes_proper.
    + apply (describes_filter_or _ _ _ _ _ _ Update_release_eq rs (λ r u, release_is u r) H).
      intros r row. unfold Update_release_eq, release_is.
      destruct (Update.release (row_update row)) as [r'|].
      * rewrite bool_decide_eq_true. naive_solver.
      * naive_solver.
    + naive_solver.
  - eapply describes_proper; [done | naive_solver].
Qed.

Lemma step_user o q jp U jb jc jk :
  describes q jp U jb jc jk →
  ∃ q', if_not_None o (λ user query,
          Ok (Query_filter (Compare (Update_user_eq user)) query)) q = Ok q'
        ∧ describes q' jp (λ u, U u ∧ ∀ v, o = Some v → user_is u v) jb jc jk.
Proof.
  intros H. destruct o as [user|]; simpl; eexists; (split; [done |]).
  - eapply describes_proper.
    + apply (describes_filter _ _ _ _ _ _ _ (λ u, user_is u user) H).
      intros row. unfold Update_user_eq, user_is.
      destruct (Update.user (row_update row)) as [u'|].
      * rewrite bool_decide_eq_true. naive_solver.
      * naive_solver.
    + naive_solver.
  - eapply describes_proper; [done | naive_solver].
Qed.

Lemma step_bugs o q jp U jc jk :
  describes q jp U None jc jk →
  ∃ q', if_not_None o (λ bugs query,
          let query := Query_join Update_bugs query in
          Ok (Query_filter (or_ (Bug_bug_id_eq <$> bugs)) query)) q = Ok q'
        ∧ describes q' (match o with Some _ => Bug_entity | None => jp end) U o jc jk.
Proof.
  intros H. destruct o as [ids|]; unfold if_not_None; eexists; (split; [done |]); [| done].
  split; [by rewrite joinpoint_filter |]. intros db row.
  rewrite rows_filter_or, (rows_join_bugs _ _ _ _ _ H), existsb_fmap_true.
  unfold Bug_bug_id_eq. simpl. split.
  - intros ((Hu & HU & (b & Hrb & Hb) & Hc & Hk) & Hids). split_and!; try done.
    exists b. split_and!; try done. destruct Hids as [Hids | (x & Hx & Hfx)].
    + left. by destruct ids.
    + right. rewrite Hrb in Hfx. apply bool_decide_eq_true in Hfx. by subst x.
  - intros (Hu & HU & (b & Hrb & Hb & Hids) & Hc & Hk). split.
    + split_and!; try done. by exists b.
    + destruct Hids as [-> | Hin]; [by left | right].
      exists (Bug.bug_id b). split; [done |]. rewrite Hrb. by apply bool_decide_eq_true.
Qed.

Lemma step_cves o q jp U jb jk :
  describes q jp U jb None jk →
  ∃ q', if_not_None o (λ cves query,
          let query := Query_join Update_cves query in
          Ok (Query_filter (or_ (CVE_cve_id_eq <$> cves)) query)) q = Ok q'
        ∧ describes q' (match o with Some _ => CVE_entity | None => jp end) U jb o jk.
Proof.
  intros H. destruct o as [ids|]; unfold if_not_None; eexists; (split; [done |]); [| done].
  split; [by rewrite joinpoint_filter |]. intros db row.
  rewrite rows_filter_or, (rows_join_cves _ _ _ _ _ H), existsb_fmap_true.
  unfold CVE_cve_id_eq. simpl. split.
  - intros ((Hu & HU & Hb & (c & Hrc & Hc) & Hk) & Hids). split_and!; try done.
    exists c. split_and!; try done. destruct Hids as [Hids | (x & Hx & Hfx)].
    + left. by destruct ids.
    + right. rewrite Hrc in Hfx. apply bool_decide_eq_true in Hfx. by subst x.
  - intros (Hu & HU & Hb & (c & Hrc & Hc & Hids) & Hk). split.
    + split_and!; try done. by exists c.
    + destruct Hids as [-> | Hin]; [by left | right].
      exists (CVE.cve_id c). split; [done |]. rewrite Hrc. by apply bool_decide_eq_true.
Qed.

Lemma step_packages o q jp U jb jc :
  describes q jp U jb jc None →
  ∃ q', if_not_None o (λ packages query,
          let query := Query_join Build_package (Query_join Update_builds query) in
          Ok (Query_filter (or_ (Package_name_eq <$> packages)) query)) q = Ok q'
        ∧ describes q' (match o with Some _ => Package_entity | None => jp end) U jb jc o.
Proof.
  intros H. destruct o as [names|]; unfold if_not_None; eexists; (split; [done |]); [| done].
  split; [by rewrite joinpoint_filter |]. intros db row.
  rewrite rows_filter_or, (rows_join_packages _ _ _ _ _ H), existsb_fmap_true.
  unfold Package_name_eq. simpl. split.
  - intros ((Hu & HU & Hb & Hc & (b & p & Hrb & Hrp & Hbd & Hp)) & Hn).
    split_and!; try done.
    exists b, p. split_and!; try done. destruct Hn as [Hn | (x & Hx & Hfx)].
    + left. by destruct names.
    + right. rewrite Hrp in Hfx. apply bool_decide_eq_true in Hfx. by subst x.
  - intros (Hu & HU & Hb & Hc & (b & p & Hrb & Hrp & Hbd & Hp & Hn)). split.
    + split_and!; try done. by exists b, p.
    + destruct Hn as [-> | Hin]; [by left | right].
      exists (Package.name p). split; [done |]. rewrite Hrp. by apply bool_decide_eq_true.
Qed.

(** ** Sequencing *)

Lemma outcome_Ok q (D : Query → Prop) : D q → outcome (Ok q) true D.
Proof. intros H. by exists q. Qed.

Lemma outcome_bind_total (r : result Query) (K : Query → result Query) ok
    (D D' : Query → Prop) :
  (∃ q, r = Ok q ∧ D q) →
  (∀ q, D q → outcome (K q) ok D') →
  outcome (r ≫= K) ok D'.
Proof. intros (q & -> & HD) HK. by apply HK. Qed.

Lemma outcome_bind (r : result Query) (K : Query → result Query) ok ok'
    (D D' : Query → Prop) :
  outcome r ok D →
  (∀ q, D q → outcome (K q) ok' D') →
  outcome (r ≫= K) (ok && ok') D'.
Proof.
  destruct ok; simpl.
  - intros (q & -> & HD) HK. by apply HK.
  - intros (entity & key & -> & ?) _. by exists entity, key.
Qed.

Lemma outcome_proper (r : result Query) ok ok' (D D' : Query → Prop) :
  outcome r ok D → ok = ok' → (∀ q, D q → D' q) → outcome r ok' D'.
Proof. intros H <- HD. destruct ok; simpl in *; naive_solver. Qed.

Ltac next_query :=
  clear; let q := fresh "q" in let H := fresh "H" in intros q H; cbv beta in H.
Ltac step_total lem :=
  eapply outcome_bind_total; [eapply lem; eassumption | next_query].
Ltac step_partial :=
  eapply outcome_bind; [eapply step_filter_by; eassumption | next_query].

Lemma compose_outcome data :
  outcome (compose data) (filter_by_resolves data)
    (λ q, describes q (joinpoint_after_packages data) (update_criteria data)
            (ListUpdate.bugs data) (ListUpdate.cves data) (ListUpdate.packages data)).
Proof.
  eapply outcome_proper.
  - unfold compose. pose proof describes_base as H.
    step_total step_since. step_total step_bugs. step_partial.
    step_total step_cves. step_partial. step_total step_since.
    step_total step_packages. step_partial. step_total step_since.
    step_partial. step_total step_since. step_total step_releases.
    step_partial. step_total step_since. step_partial. step_partial.
    step_total step_since. step_partial. step_partial. step_total step_since.
    step_partial. step_partial. step_total step_user.
    apply outcome_Ok.
    match goal with H : describes _ _ _ _ _ _ |- _ => pattern q; exact H end.
  - unfold filter_by_resolves, joinpoint_after_packages, joinpoint_after_cves,
      joinpoint_after_bugs.
    by rewrite andb_true_r, !andb_assoc.
  - intros q H. eapply describes_proper; [exact H |].
    intros u. unfold update_criteria. tauto.
Qed.

Lemma compose_succeeds data :
  filter_by_resolves data = true →
  ∃ q, compose data = Ok q
       ∧ describes q (joinpoint_after_packages data) (update_criteria data)
           (ListUpdate.bugs data) (ListUpdate.cves data) (ListUpdate.packages data).
Proof. intros H. pose proof (compose_outcome data) as Ho. by rewrite H in Ho. Qed.

Lemma compose_raises data :
  filter_by_resolves data = false →
  ∃ entity key, compose data = Raise (InvalidRequestError entity key)
                ∧ entity ≠ Update_entity.
Proof. intros H. pose proof (compose_outcome data) as Ho. by rewrite H in Ho. Qed.

Lemma compose_Ok_resolves data q :
  compose data = Ok q → filter_by_resolves data = true.
Proof.
  intros Hq. destruct (filter_by_resolves data) eqn:H; [done |].
  apply compose_raises in H as (entity & key & He & _). congruence.
Qed.

(** ** Iteration *)

Lemma elem_of_unique_list_1 {A K} `{EqDecision K} (f : A → K) seen l x :
  x ∈ unique_list f seen l → x ∈ l ∧ f x ∉ seen.
Proof.
  revert seen. induction l as [|a l IH]; intros seen; simpl.
  - intros H. by apply elem_of_nil in H.
  - case_decide as Hseen.
    + intros H. apply IH in H as [? ?]. split; [by right | done].
    + intros H. apply elem_of_cons in H as [-> | H].
      * split; [by left | done].
      * apply IH in H as [? Hn]. split; [by right |].
        intros Hs. apply Hn. by right.
Qed.

Lemma elem_of_unique_list_2 {A K} `{EqDecision K} (f : A → K) seen l x :
  (∀ y, y ∈ l → f y = f x → y = x) →
  x ∈ l → f x ∉ seen → x ∈ unique_list f seen l.
Proof.
  revert seen. induction l as [|a l IH]; intros seen Hinj Hx Hseen; simpl.
  - by apply elem_of_nil in Hx.
  - destruct (decide (f a = f x)) as [Heq | Hne].
    + assert (a = x) as -> by (apply Hinj; [by left | done]).
      rewrite decide_False by done. by left.
    + apply elem_of_cons in Hx as [-> | Hx]; [done |].
      assert (∀ y, y ∈ l → f y = f x → y = x) as Hinj'
        by (intros y Hy; apply Hinj; by right).
      case_decide.
      * by apply IH.
      * right. apply IH; [done | done |].
        intros Hs. apply elem_of_cons in Hs as [? | ?]; congruence.
Qed.

Lemma NoDup_fmap_eq {A K} (f : A → K) (l : list A) x y :
  NoDup (f <$> l) → x ∈ l → y ∈ l → f x = f y → x = y.
Proof.
  induction l as [|a l IH]; simpl; intros Hnd Hx Hy Hf.
  - by apply elem_of_nil in Hx.
  - apply NoDup_cons in Hnd as [Ha Hnd].
    apply elem_of_cons in Hx as [-> | Hx]; apply elem_of_cons in Hy as [-> | Hy].
    + done.
    + exfalso. apply Ha. rewrite Hf. by apply list_elem_of_fmap_2.
    + exfalso. apply Ha. rewrite <- Hf. by apply list_elem_of_fmap_2.
    + by apply IH.
Qed.

Lemma elem_of_Query_iter_1 q db u :
  u ∈ Query_iter q db → ∃ row, row ∈ rows q db ∧ row_update row = u.
Proof.
  intros H. apply elem_of_unique_list_1 in H as [H _].
  apply list_elem_of_fmap in H as (row & -> & Hrow). by exists row.
Qed.

Lemma elem_of_Query_iter q jp U jb jc jk db u :
  describes q jp U jb jc jk → primary_keys_unique db →
  u ∈ Query_iter q db ↔ ∃ row, row ∈ rows q db ∧ row_update row = u.
Proof.
  intros Hd Hpk. split; [apply elem_of_Query_iter_1 |].
  intros (row & Hrow & <-). apply elem_of_unique_list_2.
  - intros y Hy Hid. apply list_elem_of_fmap in Hy as (row' & -> & Hrow').
    apply (describes_rows _ _ _ _ _ _ Hd) in Hrow as [Hu _].
    apply (describes_rows _ _ _ _ _ _ Hd) in Hrow' as [Hu' _].
    by apply (NoDup_fmap_eq Update.id (updates db)).
  - by apply list_elem_of_fmap_2.
  - apply not_elem_of_nil.
Qed.

Lemma rows_of_update q jp U jb jc jk db u :
  describes q jp U jb jc jk →
  (∃ row, row ∈ rows q db ∧ row_update row = u) ↔
    u ∈ updates db ∧ U u
    ∧ (∀ ids, jb = Some ids → joined_to_any (Update.bugs u) Bug.bug_id ids)
    ∧ (∀ ids, jc = Some ids → joined_to_any (Update.cves u) CVE.cve_id ids)
    ∧ (∀ names, jk = Some names → joined_to_any (Update_packages u) Package.name names).
Proof.
  intros Hd. unfold joined_to_any, Update_packages. split.
  - intros (row & Hrow & <-).
    apply (describes_rows _ _ _ _ _ _ Hd) in Hrow as (Hu & HU & Hb & Hc & Hk).
    split_and!; try done.
    + intros ids ->. destruct Hb as (b & _ & ? & ?). by exists b.
    + intros ids ->. destruct Hc as (c & _ & ? & ?). by exists c.
    + intros names ->. destruct Hk as (b & p & _ & _ & ? & ? & ?). exists p.
      split; [| done]. apply list_elem_of_omap. by exists b.
  - intros (Hu & HU & Hb & Hc & Hk).
    assert (∃ rb, bug_slot jb (mkRow u rb None None None)) as (rb & Hrb).
    { destruct jb as [ids|]; [| by exists None].
      destruct (Hb ids eq_refl) as (b & ? & ?). exists (Some b). by exists b. }
    assert (∃ rc, cve_slot jc (mkRow u None rc None None)) as (rc & Hrc).
    { destruct jc as [ids|]; [| by exists None].
      destruct (Hc ids eq_refl) as (c & ? & ?). exists (Some c). by exists c. }
    assert (∃ rbd rp, package_slot jk (mkRow u None None rbd rp)) as (rbd & rp & Hrk).
    { destruct jk as [names|]; [| by exists None, None].
      destruct (Hk names eq_refl) as (p & Hp & ?).
      apply list_elem_of_omap in Hp as (b & ? & ?).
      exists (Some b), (Some p). by exists b, p. }
    exists (mkRow u rb rc rbd rp). split; [| done].
    apply (describes_rows _ _ _ _ _ _ Hd). simpl. by split_and!.
Qed.

Lemma query_updates_unfold data db :
  query_updates data db =
    (match compose data with
     | Ok query => Ok (dict [("updates", JArr (Update__json__ <$> Query_iter query db))])
     | Raise e => Raise e
     end, db).
Proof.
  unfold query_updates, mbind, Session_bind, lift, Query_all, mret, Session_ret.
  by destruct (compose data).
Qed.

Lemma query_updates_selected data db q :
  compose data = Ok q →
  query_updates data db =
    (Ok (dict [("updates", JArr (Update__json__ <$> selected data db))]), db).
Proof. intros H. rewrite query_updates_unfold. unfold selected. by rewrite H. Qed.

Lemma selected_raised data db :
  filter_by_resolves data = false → selected data db = [].
Proof.
  intros H. apply compose_raises in H as (entity & key & He & _).
  unfold selected. by rewrite He.
Qed.

Lemma elem_of_selected data db u :
  primary_keys_unique db → filter_by_resolves data = true →
  u ∈ selected data db ↔ u ∈ updates db ∧ composed_restriction data u.
Proof.
  intros Hpk Hok. destruct (compose_succeeds data Hok) as (q & Hq & Hd).
  unfold selected. rewrite Hq.
  rewrite (elem_of_Query_iter _ _ _ _ _ _ _ _ Hd Hpk), (rows_of_update _ _ _ _ _ _ _ _ Hd).
  unfold update_criteria, composed_restriction. tauto.
Qed.

Lemma elem_of_selected_1 data db u :
  u ∈ selected data db → u ∈ updates db ∧ composed_restriction data u.
Proof.
  intros Hu. destruct (filter_by_resolves data) eqn:Hok.
  - destruct (compose_succeeds data Hok) as (q & Hq & Hd).
    unfold selected in Hu. rewrite Hq in Hu. apply elem_of_Query_iter_1 in Hu.
    apply (rows_of_update _ _ _ _ _ _ _ _ Hd) in Hu.
    unfold update_criteria in Hu. unfold composed_restriction. tauto.
  - rewrite selected_raised in Hu by done. by apply elem_of_nil in Hu.
Qed.

Lemma table_restriction_composed data u :
  table_restriction data u → composed_restriction data u.
Proof.
  unfold table_restriction, composed_restriction, matches_any, joined_to_any.
  intros H. destruct_and!. split_and!; try done.
  all: intros l Hl;
    match goal with H : ∀ _, _ = Some _ → _ |- _ =>
      destruct (H l Hl) as (b & ? & ?); eauto end.
Qed.

Lemma composed_restriction_table data u :
  collections_nonempty data →
  composed_restriction data u → table_restriction data u.
Proof.
  unfold table_restriction, composed_restriction, matches_any, joined_to_any.
  intros (Hb & Hc & Hp & Hr) H. destruct_and!. split_and!; try done.
  all: intros l Hl;
    match goal with H : ∀ _, _ = Some _ → _ |- _ =>
      first [ destruct (H l Hl) as (b & ? & [-> | ?]); [congruence | by eauto]
            | destruct (H l Hl) as [-> | ?]; [congruence | done] ] end.
Qed.

Lemma sample_db_primary_keys_unique : primary_keys_unique sample_db.
Proof. apply (bool_decide_unpack _). vm_compute. exact I. Defined.

Example scenario_stable_F20_security :
  selected stable_F20_security sample_db = [foo_update].
Proof. vm_compute. reflexivity. Qed.

Example empty_bugs_keeps_the_join :
  selected (with_bugs (Some []) no_options) sample_db = [foo_update]
  ∧ selected no_options sample_db = [foo_update; bar_update; baz_update].
Proof. vm_compute. done. Qed.

(** An exact-match option after a join: [filter_by] looks for the column
    on the joined class and the view raises. *)
Example critpath_after_bugs_raises :
  query_updates (with_critpath (Some true) (with_bugs (Some [1234]) no_options)) sample_db
  = (Raise (InvalidRequestError Bug_entity "critpath"), sample_db).
Proof. vm_compute. reflexivity. Qed.

(** ** The claims about GET /updates/ *)

(** With [bugs] given as an empty collection the view returns the update
    that has a bug, which is linked to none of the (zero) listed ids: the
    restriction of the table of section 4.3 does not describe the
    result. *)
Lemma table_restriction_fails_for_empty_bugs :
  ¬ (∀ u, u ∈ selected (with_bugs (Some []) no_options) sample_db ↔
          u ∈ updates sample_db ∧ table_restriction (with_bugs (Some []) no_options) u).
Proof.
  intros H. assert (foo_update ∈ selected (with_bugs (Some []) no_options) sample_db) as Hin.
  { vm_compute. left. }
  apply H in Hin as (_ & _ & Hbugs & _).
  destruct (Hbugs [] eq_refl) as (b & _ & Hb). by apply elem_of_nil in Hb.
Qed.

(** C4 (as amended). For every combination of the recognized options in
    which every exact-match option that is given comes before every join
    that is made, the view returns the serialization of exactly the updates
    of the store that satisfy the conjunction of the restrictions of the
    options present (absent options restrict nothing): exact match, date
    [>=] value, or linked through the join to any listed id, name or
    release; a collection given empty restricts by its join alone
    ([releases] by nothing). When no collection is given empty this is the
    restriction of the table. *)
Theorem query_updates_restriction data db :
  primary_keys_unique db → filter_by_resolves data = true →
  query_updates data db
    = (Ok (dict [("updates", JArr (Update__json__ <$> selected data db))]), db)
  ∧ (∀ u, u ∈ selected data db ↔ u ∈ updates db ∧ composed_restriction data u)
  ∧ (collections_nonempty data →
     ∀ u, composed_restriction data u ↔ table_restriction data u).
Proof.
  intros Hpk Hok. split_and!.
  - destruct (compose_succeeds data Hok) as (q & Hq & _).
    by apply (query_updates_selected _ _ q).
  - intros u. by apply elem_of_selected.
  - intros Hne u. split.
    + by apply composed_restriction_table.
    + apply table_restriction_composed.
Qed.

Lemma query_updates_restriction_witness :
  query_updates stable_F20_security sample_db
    = (Ok (dict [("updates",
                  JArr (Update__json__ <$> selected stable_F20_security sample_db))]),
       sample_db)
  ∧ (∀ u, u ∈ selected stable_F20_security sample_db ↔
          u ∈ updates sample_db ∧ composed_restriction stable_F20_security u)
  ∧ (collections_nonempty stable_F20_security →
     ∀ u, composed_restriction stable_F20_security u
          ↔ table_restriction stable_F20_security u).
Proof.
  apply (query_updates_restriction stable_F20_security sample_db).
  - exact sample_db_primary_keys_unique.
  - reflexivity.
Defined.

(** The body of the response is an object, not an array. *)
Lemma query_updates_body_is_not_an_array :
  ¬ ∃ items, (query_updates no_options sample_db).1 = Ok (JArr items).
Proof. intros (items & H). vm_compute in H. discriminate. Qed.

(** C5 (as amended). For every GET request in which every exact-match
    option that is given comes before every join that is made, the body of
    the response is a JSON object with the one member [updates], whose
    value is the JSON array of the serialized updates found, each an update
    of the store serialized with every declared attribute and the nested
    Build, Bug and CVE identifiers. *)
Theorem query_updates_response data db :
  filter_by_resolves data = true →
  query_updates data db
    = (Ok (dict [("updates", JArr (Update__json__ <$> selected data db))]), db)
  ∧ (∀ u, u ∈ selected data db → u ∈ updates db)
  ∧ (∀ u, member_names (Update__json__ u) = declared_attributes).
Proof.
  intros Hok. split_and!.
  - destruct (compose_succeeds data Hok) as (q & Hq & _).
    by apply (query_updates_selected _ _ q).
  - intros u Hu. by apply elem_of_selected_1 in Hu as [? _].
  - done.
Qed.

Lemma query_updates_response_witness :
  query_updates no_options sample_db
    = (Ok (dict [("updates", JArr (Update__json__ <$> selected no_options sample_db))]),
       sample_db)
  ∧ (∀ u, u ∈ selected no_options sample_db → u ∈ updates sample_db)
  ∧ (∀ u, member_names (Update__json__ u) = declared_attributes).
Proof. apply (query_updates_response no_options sample_db). reflexivity. Defined.

(** X1. When an exact-match option is given after a join was made, the
    view does not answer: [filter_by] looks the keyword up on the joined
    class and the request ends in [InvalidRequestError], the store
    untouched. *)
Theorem filter_by_after_join_raises data db :
  filter_by_resolves data = false →
  ∃ entity key,
    query_updates data db = (Raise (InvalidRequestError entity key), db)
    ∧ entity ≠ Update_entity.
Proof.
  intros H. apply compose_raises in H as (entity & key & He & Hne).
  exists entity, key. split; [| done]. rewrite query_updates_unfold. by rewrite He.
Qed.

Lemma filter_by_after_join_raises_witness :
  ∃ entity key,
    query_updates (with_critpath (Some true) (with_bugs (Some [1234]) no_options))
      sample_db
    = (Raise (InvalidRequestError entity key), sample_db)
    ∧ entity ≠ Update_entity.
Proof.
  apply (filter_by_after_join_raises
           (with_critpath (Some true) (with_bugs (Some [1234]) no_options)) sample_db).
  reflexivity.
Defined.

(** C10. The view is read-only: whatever the options, the store after the
    run is the store before it. *)
Theorem query_updates_read_only data db :
  (query_updates data db).2 = db.
Proof. by rewrite query_updates_unfold. Qed.

Lemma matching_updates_unfold data db :
  matching_updates data db =
    (match compose data with
     | Ok query => Ok (Query_iter query db)
     | Raise e => Raise e
     end, db).
Proof.
  unfold matching_updates, mbind, Session_bind, lift, Query_all.
  by destruct (compose data).
Qed.

(** C7. Two evaluations with the same options, the second in the session
    the first one left, return the same set of titles, and the view the
    same response. *)
Theorem query_updates_twice data db :
  (let '(found1, db1) := matching_updates data db in
   let '(found2, _) := matching_updates data db1 in
   found_titles found1 = found_titles found2)
  ∧ (let '(response1, db1) := query_updates data db in
     let '(response2, _) := query_updates data db1 in
     response1 = response2).
Proof.
  split.
  - rewrite matching_updates_unfold. cbv beta iota.
    by rewrite matching_updates_unfold.
  - rewrite query_updates_unfold. cbv beta iota.
    by rewrite query_updates_unfold.
Qed.

(** ** Monotonicity *)

Lemma adds_one_option_extends data data' :
  adds_one_option data data' → extends data data'.
Proof.
  intros (name & Habs & _ & Hagree) other.
  destruct (decide (other = name)) as [-> | Hne]; [by left | right; by apply Hagree].
Qed.

Lemma resolvable_mono {A} jp jp' (o o' : option A) :
  o = None ∨ o = o' →
  (jp' = Update_entity → jp = Update_entity) →
  resolvable jp' o' = true → resolvable jp o = true.
Proof.
  intros [-> | ->] Hjp; [done |]. destruct o' as [v|]; [| done]. simpl.
  rewrite !bool_decide_eq_true. done.
Qed.

Lemma joinpoint_after_packages_mono data data' :
  extends data data' →
  (joinpoint_after_bugs data' = Update_entity → joinpoint_after_bugs data = Update_entity)
  ∧ (joinpoint_after_cves data' = Update_entity → joinpoint_after_cves data = Update_entity)
  ∧ (joinpoint_after_packages data' = Update_entity →
     joinpoint_after_packages data = Update_entity).
Proof.
  intros Hext.
  pose proof (Hext opt_bugs) as Hb. pose proof (Hext opt_cves) as Hc.
  pose proof (Hext opt_packages) as Hp. simpl in Hb, Hc, Hp.
  unfold joinpoint_after_packages, joinpoint_after_cves, joinpoint_after_bugs.
  destruct Hb as [-> | ->], Hc as [-> | ->], Hp as [-> | ->];
    repeat case_match; done.
Qed.

Lemma filter_by_resolves_mono data data' :
  extends data data' →
  filter_by_resolves data' = true → filter_by_resolves data = true.
Proof.
  intros Hext. destruct (joinpoint_after_packages_mono _ _ Hext) as (Hb & Hc & Hp).
  unfold filter_by_resolves. rewrite !andb_true_iff. intros H. destruct_and!.
  split_and!.
  - by apply (resolvable_mono _ _ _ _ (Hext opt_critpath) Hb).
  - by apply (resolvable_mono _ _ _ _ (Hext opt_locked) Hc).
  - by apply (resolvable_mono _ _ _ _ (Hext opt_pushed) Hp).
  - by apply (resolvable_mono _ _ _ _ (Hext opt_qa_approved) Hp).
  - by apply (resolvable_mono _ _ _ _ (Hext opt_releng_approved) Hp).
  - by apply (resolvable_mono _ _ _ _ (Hext opt_request) Hp).
  - by apply (resolvable_mono _ _ _ _ (Hext opt_security_approved) Hp).
  - by apply (resolvable_mono _ _ _ _ (Hext opt_severity) Hp).
  - by apply (resolvable_mono _ _ _ _ (Hext opt_status) Hp).
  - by apply (resolvable_mono _ _ _ _ (Hext opt_suggest) Hp).
  - by apply (resolvable_mono _ _ _ _ (Hext opt_type) Hp).
Qed.

(** An option [data] gives is given by [data'] with the same value. *)
Ltac given_by_extension Hext name :=
  let v := fresh "v" in let Hv := fresh "Hv" in
  intros v Hv; destruct (Hext name) as [Habs | Hagr];
  [simpl in Habs; congruence | simpl in Hagr; rewrite Hagr in Hv; eauto].

Lemma composed_restriction_mono data data' u :
  extends data data' →
  composed_restriction data' u → composed_restriction data u.
Proof.
  intros Hext. unfold composed_restriction. intros H. destruct_and!. split_and!.
  - given_by_extension Hext opt_approved_since.
  - given_by_extension Hext opt_bugs.
  - given_by_extension Hext opt_critpath.
  - given_by_extension Hext opt_cves.
  - given_by_extension Hext opt_locked.
  - given_by_extension Hext opt_modified_since.
  - given_by_extension Hext opt_packages.
  - given_by_extension Hext opt_pushed.
  - given_by_extension Hext opt_pushed_since.
  - given_by_extension Hext opt_qa_approved.
  - given_by_extension Hext opt_qa_approved_since.
  - given_by_extension Hext opt_releases.
  - given_by_extension Hext opt_releng_approved.
  - given_by_extension Hext opt_releng_approved_since.
  - given_by_extension Hext opt_request.
  - given_by_extension Hext opt_security_approved.
  - given_by_extension Hext opt_security_approved_since.
  - given_by_extension Hext opt_severity.
  - given_by_extension Hext opt_status.
  - given_by_extension Hext opt_submitted_since.
  - given_by_extension Hext opt_suggest.
  - given_by_extension Hext opt_type.
  - given_by_extension Hext opt_user.
Qed.

Lemma selected_mono data data' db :
  primary_keys_unique db → extends data data' →
  selected data' db ⊆ selected data db.
Proof.
  intros Hpk Hext u Hu. destruct (filter_by_resolves data') eqn:Hok'.
  - apply elem_of_selected in Hu as [Hin Hr]; [| done | done].
    apply elem_of_selected; [done | by apply (filter_by_resolves_mono data data') |].
    split; [done |]. by apply (composed_restriction_mono data data').
  - rewrite selected_raised in Hu by done. by apply elem_of_nil in Hu.
Qed.

(** C6. Composer monotonicity: over a store (with its primary key), the
    updates returned for options [data'] that add one option to [data] are
    among the updates returned for [data], and so are their titles. *)
Theorem adding_an_option_never_adds_a_result data data' db :
  primary_keys_unique db → adds_one_option data data' →
  selected data' db ⊆ selected data db
  ∧ titles (selected data' db) ⊆ titles (selected data db).
Proof.
  intros Hpk Hadd.
  assert (selected data' db ⊆ selected data db) as Hsub
    by (apply selected_mono; [done | by apply adds_one_option_extends]).
  split; [done |]. unfold titles. intros t.
  rewrite !elem_of_list_to_set, !list_elem_of_fmap.
  intros (u & -> & Hu). exists u. split; [done | by apply Hsub].
Qed.

Lemma adding_an_option_never_adds_a_result_witness :
  selected stable_F20_security sample_db ⊆ selected stable_F20 sample_db
  ∧ titles (selected stable_F20_security sample_db)
      ⊆ titles (selected stable_F20 sample_db).
Proof.
  apply (adding_an_option_never_adds_a_result stable_F20 stable_F20_security sample_db).
  - exact sample_db_primary_keys_unique.
  - exists opt_type. split_and!; [reflexivity | discriminate |].
    intros other Hother. destruct other; try reflexivity. by destruct Hother.
Defined.

(** ** Collections given empty *)

Lemma joined_to_any_nil {B K} (linked : list B) (key : B → K) :
  joined_to_any linked key [] ↔ linked ≠ [].
Proof.
  unfold joined_to_any. split.
  - intros (b & Hb & _) ->. by apply elem_of_nil in Hb.
  - destruct linked as [|b l]; [done |]. intros _. exists b. split; [by left | by left].
Qed.

Lemma extends_without_bugs data : extends (with_bugs None data) data.
Proof. intros name. destruct name; simpl; by eauto. Qed.

Lemma extends_without_cves data : extends (with_cves None data) data.
Proof. intros name. destruct name; simpl; by eauto. Qed.

Lemma extends_without_packages data : extends (with_packages None data) data.
Proof. intros name. destruct name; simpl; by eauto. Qed.

Lemma empty_bugs_restricts_by_join data db u :
  primary_keys_unique db → filter_by_resolves data = true →
  ListUpdate.bugs data = Some [] →
  u ∈ selected data db ↔ u ∈ selected (with_bugs None data) db ∧ Update.bugs u ≠ [].
Proof.
  intros Hpk Hok Hb.
  rewrite !elem_of_selected;
    [| done | by apply (filter_by_resolves_mono _ data); [apply extends_without_bugs |]
     | done | done].
  split.
  - intros (Hu & Hr). split_and!; [done | |].
    + by apply (composed_restriction_mono _ data); [apply extends_without_bugs |].
    + destruct Hr as (_ & Hbugs & _). exact (proj1 (joined_to_any_nil _ _) (Hbugs [] Hb)).
  - intros ((Hu & Hr) & Hne). split; [done |].
    unfold composed_restriction in *. simpl in Hr. destruct_and!.
    split_and!; try done.
    intros ids Hids. rewrite Hb in Hids. injection Hids as <-. by apply joined_to_any_nil.
Qed.

Lemma empty_cves_restricts_by_join data db u :
  primary_keys_unique db → filter_by_resolves data = true →
  ListUpdate.cves data = Some [] →
  u ∈ selected data db ↔ u ∈ selected (with_cves None data) db ∧ Update.cves u ≠ [].
Proof.
  intros Hpk Hok Hc.
  rewrite !elem_of_selected;
    [| done | by apply (filter_by_resolves_mono _ data); [apply extends_without_cves |]
     | done | done].
  split.
  - intros (Hu & Hr). split_and!; [done | |].
    + by apply (composed_restriction_mono _ data); [apply extends_without_cves |].
    + destruct Hr as (_ & _ & _ & Hcves & _). exact (proj1 (joined_to_any_nil _ _) (Hcves [] Hc)).
  - intros ((Hu & Hr) & Hne). split; [done |].
    unfold composed_restriction in *. simpl in Hr. destruct_and!.
    split_and!; try done.
    intros ids Hids. rewrite Hc in Hids. injection Hids as <-. by apply joined_to_any_nil.
Qed.

Lemma empty_packages_restricts_by_join data db u :
  primary_keys_unique db → filter_by_resolves data = true →
  ListUpdate.packages data = Some [] →
  u ∈ selected data db ↔
    u ∈ selected (with_packages None data) db ∧ Update_packages u ≠ [].
Proof.
  intros Hpk Hok Hp.
  rewrite !elem_of_selected;
    [| done | by apply (filter_by_resolves_mono _ data); [apply extends_without_packages |]
     | done | done].
  split.
  - intros (Hu & Hr). split_and!; [done | |].
    + by apply (composed_restriction_mono _ data); [apply extends_without_packages |].
    + destruct Hr as (_ & _ & _ & _ & _ & _ & Hpkgs & _).
      exact (proj1 (joined_to_any_nil _ _) (Hpkgs [] Hp)).
  - intros ((Hu & Hr) & Hne). split; [done |].
    unfold composed_restriction in *. simpl in Hr. destruct_and!.
    split_and!; try done.
    intros ids Hids. rewrite Hp in Hids. injection Hids as <-. by apply joined_to_any_nil.
Qed.

(** C9. When [bugs] (likewise [cves], [packages]) is given as an empty
    collection, the join is still made: no update without a linked bug
    (CVE, build of a package) is returned; the [or_] of no clauses leaves
    the query as the join made it, so that, when the query composes, the
    updates returned are those returned without the option that have a
    linked bug (CVE, package); the response of the view is the
    serialization of the updates so selected; and giving the empty
    collection is not the same as omitting the option: the view answers
    differently. *)
Theorem empty_collection_still_joins data db :
  (ListUpdate.bugs data = Some [] → ∀ u, u ∈ selected data db → Update.bugs u ≠ [])
  ∧ (ListUpdate.cves data = Some [] → ∀ u, u ∈ selected data db → Update.cves u ≠ [])
  ∧ (ListUpdate.packages data = Some [] →
     ∀ u, u ∈ selected data db → Update_packages u ≠ [])
  ∧ (∀ query, Query_filter (or_ (Bug_bug_id_eq <$> [])) query = query
              ∧ Query_filter (or_ (CVE_cve_id_eq <$> [])) query = query
              ∧ Query_filter (or_ (Package_name_eq <$> [])) query = query)
  ∧ (primary_keys_unique db → filter_by_resolves data = true →
       (ListUpdate.bugs data = Some [] → ∀ u,
          u ∈ selected data db ↔
            u ∈ selected (with_bugs None data) db ∧ Update.bugs u ≠ [])
       ∧ (ListUpdate.cves data = Some [] → ∀ u,
          u ∈ selected data db ↔
            u ∈ selected (with_cves None data) db ∧ Update.cves u ≠ [])
       ∧ (ListUpdate.packages data = Some [] → ∀ u,
          u ∈ selected data db ↔
            u ∈ selected (with_packages None data) db ∧ Update_packages u ≠ []))
  ∧ selected (with_bugs (Some []) no_options) sample_db
      ≠ selected (with_bugs None no_options) sample_db
  ∧ selected (with_cves (Some []) no_options) sample_db
      ≠ selected (with_cves None no_options) sample_db
  ∧ selected (with_packages (Some []) no_options) sample_db
      ≠ selected (with_packages None no_options) sample_db
  ∧ (query_updates data db).1
    = match compose data with
      | Ok _ => Ok (dict [("updates", JArr (Update__json__ <$> selected data db))])
      | Raise e => Raise e
      end
  ∧ (filter_by_resolves data = true →
     query_updates data db
     = (Ok (dict [("updates", JArr (Update__json__ <$> selected data db))]), db))
  ∧ query_updates (with_bugs (Some []) no_options) sample_db
      ≠ query_updates (with_bugs None no_options) sample_db
  ∧ query_updates (with_cves (Some []) no_options) sample_db
      ≠ query_updates (with_cves None no_options) sample_db
  ∧ query_updates (with_packages (Some []) no_options) sample_db
      ≠ query_updates (with_packages None no_options) sample_db.
Proof.
  split_and!.
  - intros Hb u Hu. apply elem_of_selected_1 in Hu as (_ & _ & Hbugs & _).
    exact (proj1 (joined_to_any_nil _ _) (Hbugs [] Hb)).
  - intros Hc u Hu. apply elem_of_selected_1 in Hu as (_ & _ & _ & _ & Hcves & _).
    exact (proj1 (joined_to_any_nil _ _) (Hcves [] Hc)).
  - intros Hp u Hu.
    apply elem_of_selected_1 in Hu as (_ & _ & _ & _ & _ & _ & _ & Hpkgs & _).
    exact (proj1 (joined_to_any_nil _ _) (Hpkgs [] Hp)).
  - done.
  - intros Hpk Hok. split_and!; intros Hempty u.
    + by apply empty_bugs_restricts_by_join.
    + by apply empty_cves_restricts_by_join.
    + by apply empty_packages_restricts_by_join.
  - vm_compute. discriminate.
  - vm_compute. discriminate.
  - vm_compute. discriminate.
  - rewrite query_updates_unfold. unfold selected. by destruct (compose data).
  - intros Hok. destruct (compose_succeeds data Hok) as (q & Hq & _).
    by apply (query_updates_selected _ _ q).
  - vm_compute. discriminate.
  - vm_compute. discriminate.
  - vm_compute. discriminate.
Qed.

Lemma empty_collection_still_joins_witness :
  ListUpdate.bugs (with_bugs (Some []) no_options) = Some []
  ∧ (∀ u, u ∈ selected (with_bugs (Some []) no_options) sample_db → Update.bugs u ≠ [])
  ∧ query_updates (with_bugs (Some []) no_options) sample_db
    = (Ok (dict [("updates", JArr [Update__json__ foo_update])]), sample_db).
Proof.
  pose proof (empty_collection_still_joins (with_bugs (Some []) no_options) sample_db)
    as (Hbugs & _ & _ & _ & _ & _ & _ & _ & _ & Hview & _).
  split_and!; [reflexivity | exact (Hbugs eq_refl) |].
  rewrite (Hview eq_refl). reflexivity.
Defined.

(** * Properties of POST /updates/ *)

Example create_qux :
  (new_update Update_edit Update_new
     (sample_request sample_db (submission ["qux-1.0-1.fc20"] None) alice)).2
  = Some (Update__json__
      (Update.mk 4 "qux-1.0-1.fc20" (Some pending) None (Some bugfix) None None
         (Some "notes") (Some false) (Some false) (Some false) (Some false) None
         (Some false) None (Some false) None (Some 200) None None None
         [qux_build] [Bug.mk 1234] [] None (Some alice))).
Proof. vm_compute. reflexivity. Qed.

Example edit_foo :
  visible (new_update Update_edit Update_new
     (sample_request sample_db
        (submission ["foo-1.0-2.fc20"] (Some "foo-1.0-1.fc20")) alice))
  = ([], Some (Update__json__
      (Update.mk 1 "foo-1.0-2.fc20" (Some stable) None (Some bugfix) None None
         (Some "notes") (Some false) (Some true) (Some false) (Some false) None
         (Some false) None (Some false) None (Some 100) (Some 200) None None
         [Build.mk "foo-1.0-2.fc20" (Some foo)] [Bug.mk 1234]
         [CVE.mk "CVE-2014-0001"] (Some F20) (Some alice)))).
Proof. vm_compute. reflexivity. Qed.

Example title_of_sorts :
  title_of ["foo-1.0-1.fc20"; "bar-2.0-1.fc20"] = "bar-2.0-1.fc20 foo-1.0-1.fc20".
Proof. vm_compute. reflexivity. Qed.

Lemma run_validators_app (before : list Validator) validator after request :
  run_validators (before ++ validator :: after)%list request
  = run_validators after (validator (run_validators before request)).
Proof. unfold run_validators. by rewrite foldl_app. Qed.

(** ** The validators of the POST *)

(** The first validator rejects the builds and the last one the type: the
    last one is still called, and the response carries both errors. *)
Lemma validators_do_not_abort :
  ¬ aborts_at_first_failure
      (new_update_validators
         (rejecting "builds" "Build not in name-version-release format")
         accepting accepting accepting accepting accepting
         (rejecting "type" "Invalid value"))
      (new_update Update_edit Update_new)
      (sample_request sample_db (submission ["qux"] None) alice).
Proof.
  intros H.
  specialize (H [] (rejecting "builds" "Build not in name-version-release format")
                [accepting; accepting; accepting; accepting; accepting;
                 rejecting "type" "Invalid value"] eq_refl eq_refl).
  vm_compute in H. specialize (H ltac:(discriminate)). discriminate.
Qed.

(** C1 (as amended). For every POST submission the validators are called
    in the fixed order NVR, version, builds, uniqueness, tags, ACL, enums,
    each on the request as the ones before it left it; every one of them is
    called, also after one that recorded an error, and the errors
    accumulate on the request. The view runs only when no validator
    recorded an error; otherwise the response is the rejection with all
    the errors recorded. *)
Theorem validators_run_in_order Update_edit' Update_new'
    validate_nvrs validate_version validate_builds validate_uniqueness
    validate_tags validate_acls validate_enums request :
  let validators :=
    new_update_validators validate_nvrs validate_version validate_builds
      validate_uniqueness validate_tags validate_acls validate_enums in
  let post :=
    updates_post Update_edit' Update_new' validate_nvrs validate_version validate_builds
      validate_uniqueness validate_tags validate_acls validate_enums in
  let checked :=
    validate_enums (validate_acls (validate_tags (validate_uniqueness
      (validate_builds (validate_version (validate_nvrs request)))))) in
  run_validators validators request = checked
  ∧ (∀ (before : list Validator) validator after,
       validators = (before ++ validator :: after)%list →
       run_validators validators request
       = run_validators after (validator (run_validators before request)))
  ∧ (errors checked ≠ [] → post request = (checked, json_error (errors checked)))
  ∧ (errors checked = [] →
       post request
       = let '(request', response) := new_update Update_edit' Update_new' checked in
         match errors request' with
         | [] => (request', rendered response)
         | errors => (request', json_error errors)
         end).
Proof.
  intros validators post checked. split_and!.
  - done.
  - intros before validator after ->. apply run_validators_app.
  - intros Herr. unfold post, updates_post, call_service.
    change (run_validators _ request) with checked.
    by destruct (errors checked).
  - intros Herr. unfold post, updates_post, call_service.
    change (run_validators _ request) with checked.
    by rewrite Herr.
Qed.

Lemma validators_run_in_order_witness :
  updates_post Update_edit Update_new
    (rejecting "builds" "Build not in name-version-release format")
    accepting accepting accepting accepting accepting
    (rejecting "type" "Invalid value")
    (sample_request sample_db (submission ["qux"] None) alice)
  = (rejecting "type" "Invalid value"
       (rejecting "builds" "Build not in name-version-release format"
          (sample_request sample_db (submission ["qux"] None) alice)),
     json_error [mkError "body" "builds" "Build not in name-version-release format";
                 mkError "body" "type" "Invalid value"]).
Proof.
  refine (proj1 (proj2 (proj2 (validators_run_in_order Update_edit Update_new
    (rejecting "builds" "Build not in name-version-release format")
    accepting accepting accepting accepting accepting
    (rejecting "type" "Invalid value")
    (sample_request sample_db (submission ["qux"] None) alice)))) _).
  discriminate.
Defined.

(** ** Failures of the create-or-edit step *)

(** Editing a title that does not exist raises [NotFound], editing the
    update of somebody else raises [Forbidden]; the caller sees the same
    rejection for both. *)
Lemma failure_kinds_are_not_distinguished :
  ¬ (∀ request request' e e',
       failure request = Some e → failure request' = Some e' → e ≠ e' →
       visible (new_update Update_edit Update_new request)
       ≠ visible (new_update Update_edit Update_new request')).
Proof.
  intros H.
  apply (H (sample_request sample_db (submission ["qux-1.0-1.fc20"] (Some "nope")) alice)
           (sample_request sample_db
              (submission ["qux-1.0-1.fc20"] (Some "foo-1.0-1.fc20")) bob)
           (UpdateError NotFound) (UpdateError Forbidden));
    by vm_compute.
Qed.

(** C2 (as amended). For every failure arising during the create-or-edit
    step, whatever its kind, the exception is caught and the view records
    the one error at location [body], field [builds], with the message
    "Unable to create update", and returns nothing; when the validators
    had recorded no error, the caller receives the rejection with exactly
    that error. The kind of the failure is not reported. *)
Theorem new_update_failure Update_edit' Update_new' validators request e db' :
  create_or_edit Update_edit' Update_new' request (db request) = (Raise e, db') →
  new_update Update_edit' Update_new' request
    = (errors_add "body" "builds" "Unable to create update" (set_db db' request), None)
  ∧ (∀ request0, run_validators validators request0 = request → errors request = [] →
       (call_service validators (new_update Update_edit' Update_new') request0).2
       = json_error [mkError "body" "builds" "Unable to create update"]).
Proof.
  intros Hraise. assert (new_update Update_edit' Update_new' request
    = (errors_add "body" "builds" "Unable to create update" (set_db db' request), None))
    as Hview by (unfold new_update; by rewrite Hraise).
  split; [done |]. intros request0 Hrun Herr.
  unfold call_service. rewrite Hrun, Herr, Hview. simpl. by rewrite Herr.
Qed.

Lemma new_update_failure_witness :
  new_update Update_edit Update_new
    (sample_request sample_db (submission ["qux-1.0-1.fc20"] (Some "nope")) alice)
  = (errors_add "body" "builds" "Unable to create update"
       (sample_request sample_db (submission ["qux-1.0-1.fc20"] (Some "nope")) alice),
     None).
Proof.
  refine (proj1 (new_update_failure Update_edit Update_new []
    (sample_request sample_db (submission ["qux-1.0-1.fc20"] (Some "nope")) alice)
    (UpdateError NotFound) sample_db _)).
  reflexivity.
Defined.

(** ** A false [edited] *)

(** C8. When [edited] is bound to a false value, the empty string for one,
    the view takes the creation path: the body of the [try] is the call of
    [Update.new], the view returns the serialization of the update
    [Update.new] returned, on the store it left, or records the error when
    [Update.new] raised, and the outcome does not depend on
    [Update.edit]. *)
Theorem falsy_edited_creates Update_edit' Update_new' request :
  truthy (SaveUpdate.edited (validated request)) = false →
  truthy (Some "") = false
  ∧ create_or_edit Update_edit' Update_new' request
      = Update_new' request (validated request)
  ∧ (∀ other_edit,
       new_update Update_edit' Update_new' request
       = new_update other_edit Update_new' request)
  ∧ new_update Update_edit' Update_new' request
    = match Update_new' request (validated request) (db request) with
      | (Ok up, db') => (set_db db' request, Some (Update__json__ up))
      | (Raise _, db') =>
          (errors_add "body" "builds" "Unable to create update" (set_db db' request),
           None)
      end.
Proof.
  intros Hfalsy. unfold new_update, create_or_edit. rewrite Hfalsy. done.
Qed.

Lemma falsy_edited_creates_witness :
  let request :=
    sample_request db_with_empty_title (submission ["qux-1.0-1.fc20"] (Some "")) bob in
  create_or_edit Update_edit Update_new request
    = Update_new request (submission ["qux-1.0-1.fc20"] (Some ""))
  ∧ new_update Update_edit Update_new request
    = match Update_new request (validated request) (db request) with
      | (Ok up, db') => (set_db db' request, Some (Update__json__ up))
      | (Raise _, db') =>
          (errors_add "body" "builds" "Unable to create update" (set_db db' request),
           None)
      end
  ∧ (new_update Update_edit Update_new request).2
    = Some (Update__json__
        (Update.mk 5 "qux-1.0-1.fc20" (Some pending) None (Some bugfix) None None
           (Some "notes") (Some false) (Some false) (Some false) (Some false) None
           (Some false) None (Some false) None (Some 200) None None None
           [qux_build] [Bug.mk 1234] [] None (Some bob))).
Proof.
  intros request.
  pose proof (falsy_edited_creates Update_edit Update_new request eq_refl)
    as (_ & Hbody & _ & Hview).
  split_and!; [exact Hbody | exact Hview |]. rewrite Hview. vm_compute. reflexivity.
Defined.

(** ** The dispatch on [edited] *)

(** [edited] is present and is the title of an update of the store, and
    the requester is its submitter, yet the view does not edit it: it
    creates a new update. *)
Lemma present_edited_is_not_always_an_edit :
  let request :=
    sample_request db_with_empty_title (submission ["qux-1.0-1.fc20"] (Some "")) bob in
  SaveUpdate.edited (validated request) = Some ""
  ∧ empty_update ∈ updates (db request)
  ∧ Update.title empty_update = ""
  ∧ (∃ up db', Update_edit request (validated request) (db request) = (Ok up, db')
       ∧ new_update Update_edit Update_new request
         ≠ (set_db db' request, Some (Update__json__ up)))
  ∧ (∃ up db', Update_new request (validated request) (db request) = (Ok up, db')
       ∧ new_update Update_edit Update_new request
         = (set_db db' request, Some (Update__json__ up))).
Proof.
  split_and!.
  - reflexivity.
  - vm_compute. do 3 right. left.
  - reflexivity.
  - eexists _, _. split; [vm_compute; reflexivity |]. vm_compute. discriminate.
  - eexists _, _. split; [vm_compute; reflexivity |]. vm_compute. reflexivity.
Qed.

Lemma Update_new_Ok request data db0 up db' :
  Update_new request data db0 = (Ok up, db') →
  db' = add_update up db0
  ∧ resolved_builds request (SaveUpdate.builds data) = Some (Update.builds up)
  ∧ Update.date_submitted up = Some (now request)
  ∧ Update.status up = Some pending
  ∧ Update.title up = title_of (SaveUpdate.builds data)
  ∧ Update.title up ∉ Update.title <$> updates db0.
Proof.
  unfold Update_new. destruct (resolved_builds request (SaveUpdate.builds data)); [| done].
  case_bool_decide; [done |]. intros [= <- <-]. done.
Qed.

Lemma find_Some_elem_of {A} (f : A → bool) (l : list A) x :
  find f l = Some x → x ∈ l ∧ f x = true.
Proof.
  induction l as [|a l IH]; simpl; [done |].
  destruct (f a) eqn:Hfa.
  - intros [= <-]. split; [by left | done].
  - intros H. apply IH in H as [? ?]. split; [by right | done].
Qed.

Lemma Update_edit_Ok request data db0 up db' :
  Update_edit request data db0 = (Ok up, db') →
  (∃ old, old ∈ updates db0 ∧ SaveUpdate.edited data = Some (Update.title old)
          ∧ Update.id up = Update.id old
          ∧ (is_submitter (user request) old
             || is_maintainer (user request) (Update.builds up) = true))
  ∧ db' = replace_update up db0
  ∧ resolved_builds request (SaveUpdate.builds data) = Some (Update.builds up)
  ∧ Update.notes up = SaveUpdate.notes data
  ∧ Update.type up = SaveUpdate.type data
  ∧ Update.bugs up = Bug.mk <$> SaveUpdate.bugs data
  ∧ Update.request up = SaveUpdate.request data
  ∧ Update.date_modified up = Some (now request).
Proof.
  unfold Update_edit. destruct (SaveUpdate.edited data) as [title|]; [| done]. simpl.
  destruct (find _ (updates db0)) as [old|] eqn:Hfind; [| done].
  apply find_Some_elem_of in Hfind as [Hold Htitle].
  apply bool_decide_eq_true in Htitle.
  destruct (resolved_builds request (SaveUpdate.builds data)) as [builds|]; [| done].
  destruct (is_submitter (user request) old || is_maintainer (user request) builds)
    eqn:Hacl; [| done].
  intros [= <- <-]. simpl. split_and!; try done.
  exists old. by subst title.
Qed.

(** C3 (as amended). For every validated submission, the view dispatches
    on the truth value of [edited]: when [edited] is a non-empty title it
    edits, and a successful edit is of an update of the store loaded by
    that title, with the field-level updates applied and
    [date_modified = now]; when [edited] is absent or empty it creates,
    and a successful creation associates all resolved builds and sets
    [date_submitted = now] and [status = pending]. On success the view
    returns the serialized resulting update. *)
Theorem new_update_dispatch request :
  let data := validated request in
  (truthy (SaveUpdate.edited data) = true →
     create_or_edit Update_edit Update_new request = Update_edit request data
     ∧ ∀ up db', Update_edit request data (db request) = (Ok up, db') →
         new_update Update_edit Update_new request
           = (set_db db' request, Some (Update__json__ up))
         ∧ (∃ old, old ∈ updates (db request)
                   ∧ SaveUpdate.edited data = Some (Update.title old)
                   ∧ Update.id up = Update.id old)
         ∧ db' = replace_update up (db request)
         ∧ resolved_builds request (SaveUpdate.builds data) = Some (Update.builds up)
         ∧ Update.notes up = SaveUpdate.notes data
         ∧ Update.type up = SaveUpdate.type data
         ∧ Update.bugs up = Bug.mk <$> SaveUpdate.bugs data
         ∧ Update.request up = SaveUpdate.request data
         ∧ Update.date_modified up = Some (now request))
  ∧ (truthy (SaveUpdate.edited data) = false →
     create_or_edit Update_edit Update_new request = Update_new request data
     ∧ ∀ up db', Update_new request data (db request) = (Ok up, db') →
         new_update Update_edit Update_new request
           = (set_db db' request, Some (Update__json__ up))
         ∧ db' = add_update up (db request)
         ∧ resolved_builds request (SaveUpdate.builds data) = Some (Update.builds up)
         ∧ Update.date_submitted up = Some (now request)
         ∧ Update.status up = Some pending).
Proof.
  intros data. split; intros Htruth.
  - assert (create_or_edit Update_edit Update_new request = Update_edit request data)
      as Hpath by (unfold create_or_edit; fold data; by rewrite Htruth).
    split; [done |]. intros up db' Hok. split.
    + unfold new_update. by rewrite Hpath, Hok.
    + apply Update_edit_Ok in Hok as ((old & ? & ? & ? & _) & ?). split; [| done].
      by exists old.
  - assert (create_or_edit Update_edit Update_new request = Update_new request data)
      as Hpath by (unfold create_or_edit; fold data; by rewrite Htruth).
    split; [done |]. intros up db' Hok. split.
    + unfold new_update. by rewrite Hpath, Hok.
    + apply Update_new_Ok in Hok. tauto.
Qed.

Lemma new_update_dispatch_witness :
  (let request :=
     sample_request sample_db
       (submission ["foo-1.0-2.fc20"] (Some "foo-1.0-1.fc20")) alice in
   ∃ up db', new_update Update_edit Update_new request
               = (set_db db' request, Some (Update__json__ up))
             ∧ Update.date_modified up = Some 200)
  ∧ (let request :=
       sample_request sample_db (submission ["qux-1.0-1.fc20"] None) alice in
     ∃ up db', new_update Update_edit Update_new request
                 = (set_db db' request, Some (Update__json__ up))
               ∧ Update.date_submitted up = Some 200
               ∧ Update.status up = Some pending).
Proof.
  split.
  - intros request.
    destruct (Update_edit request (validated request) (db request)) as [[up|e] db'] eqn:Hok;
      [| vm_compute in Hok; discriminate].
    exists up, db'.
    pose proof (proj2 (proj1 (new_update_dispatch request) eq_refl) up db' Hok) as H.
    split; [apply H |]. apply H.
  - intros request.
    destruct (Update_new request (validated request) (db request)) as [[up|e] db'] eqn:Hok;
      [| vm_compute in Hok; discriminate].
    exists up, db'.
    pose proof (proj2 (proj2 (new_update_dispatch request) eq_refl) up db' Hok) as H.
    split_and!; apply H.
Defined.


(** * More properties of GET /updates/ *)

Lemma unique_list_NoDup {A K} `{EqDecision K} (f : A → K) seen l :
  NoDup (f <$> unique_list f seen l).
Proof.
  revert seen. induction l as [|a l IH]; intros seen; simpl.
  - constructor.
  - case_decide; [apply IH |]. rewrite fmap_cons. constructor; [| apply IH].
    intros Hin. apply list_elem_of_fmap in Hin as (x & Hfx & Hx).
    apply elem_of_unique_list_1 in Hx as [_ Hseen]. apply Hseen. rewrite Hfx. by left.
Qed.

Lemma unique_list_NoDup_id {A K} `{EqDecision K} (f : A → K) seen l :
  NoDup (f <$> l) → (∀ x, x ∈ l → f x ∉ seen) → unique_list f seen l = l.
Proof.
  revert seen. induction l as [|a l IH]; intros seen Hnd Hseen; simpl; [done |].
  rewrite fmap_cons in Hnd. apply NoDup_cons in Hnd as [Ha Hnd].
  rewrite decide_False by (apply Hseen; by left). f_equal. apply IH; [done |].
  intros x Hx Hin. apply elem_of_cons in Hin as [Heq | Hin].
  - apply Ha. rewrite <- Heq. by apply list_elem_of_fmap_2.
  - apply (Hseen x); [by right | done].
Qed.

Lemma row_update_base_rows (l : list Update.t) :
  row_update <$> ((λ u, mkRow u None None None None) <$> l) = l.
Proof. induction l as [|u l IH]; [done |]. rewrite !fmap_cons. simpl. by f_equal. Qed.

(** X2. Whatever the options and the store, no update is returned twice:
    the primary keys of the updates the view returns are pairwise
    distinct, also when an update is linked to several listed bugs, CVEs
    or packages. *)
Theorem query_updates_returns_each_update_once data db :
  NoDup (Update.id <$> selected data db).
Proof.
  unfold selected. destruct (compose data); [apply unique_list_NoDup | constructor].
Qed.

(** X3. Without any option the view returns every update of the store, in
    the order of the table. *)
Theorem query_updates_without_options db :
  primary_keys_unique db →
  query_updates no_options db
  = (Ok (dict [("updates", JArr (Update__json__ <$> updates db))]), db).
Proof.
  intros Hpk. rewrite query_updates_unfold.
  change (compose no_options) with (Ok db_query_Update).
  unfold Query_iter. simpl. rewrite row_update_base_rows.
  rewrite unique_list_NoDup_id; [done | done |].
  intros x _. apply not_elem_of_nil.
Qed.

Lemma query_updates_without_options_witness :
  query_updates no_options sample_db
  = (Ok (dict [("updates", JArr (Update__json__ <$> updates sample_db))]), sample_db).
Proof.
  apply (query_updates_without_options sample_db). exact sample_db_primary_keys_unique.
Defined.

(** X4. [releases] given as an empty collection is the same as [releases]
    not given: the two requests compose the same query and get the same
    response, unlike the collections that join. *)
Theorem empty_releases_is_no_option data db :
  compose (with_releases (Some []) data) = compose (with_releases None data)
  ∧ query_updates (with_releases (Some []) data) db
    = query_updates (with_releases None data) db.
Proof.
  assert (compose (with_releases (Some []) data) = compose (with_releases None data))
    as H by reflexivity.
  split; [done |]. rewrite !query_updates_unfold. by rewrite H.
Qed.

(** X5. A NULL column never matches: whatever the store and the options,
    an update whose column is NULL is not returned when the option on that
    column is given, be it an exact match or a date bound, and whatever the
    value asked for. *)
Theorem null_column_never_matches data db u :
  u ∈ selected data db →
  (is_Some (ListUpdate.approved_since data) → Update.date_approved u ≠ None)
  ∧ (is_Some (ListUpdate.critpath data) → Update.critpath u ≠ None)
  ∧ (is_Some (ListUpdate.locked data) → Update.locked u ≠ None)
  ∧ (is_Some (ListUpdate.modified_since data) → Update.date_modified u ≠ None)
  ∧ (is_Some (ListUpdate.pushed data) → Update.pushed u ≠ None)
  ∧ (is_Some (ListUpdate.pushed_since data) → Update.date_pushed u ≠ None)
  ∧ (is_Some (ListUpdate.qa_approved data) → Update.qa_approved u ≠ None)
  ∧ (is_Some (ListUpdate.qa_approved_since data) → Update.qa_approval_date u ≠ None)
  ∧ (is_Some (ListUpdate.releng_approved data) → Update.releng_approved u ≠ None)
  ∧ (is_Some (ListUpdate.releng_approved_since data) → Update.releng_approval_date u ≠ None)
  ∧ (is_Some (ListUpdate.request data) → Update.request u ≠ None)
  ∧ (is_Some (ListUpdate.security_approved data) → Update.security_approved u ≠ None)
  ∧ (is_Some (ListUpdate.security_approved_since data) → Update.security_approval_date u ≠ None)
  ∧ (is_Some (ListUpdate.severity data) → Update.severity u ≠ None)
  ∧ (is_Some (ListUpdate.status data) → Update.status u ≠ None)
  ∧ (is_Some (ListUpdate.submitted_since data) → Update.date_submitted u ≠ None)
  ∧ (is_Some (ListUpdate.suggest data) → Update.suggest u ≠ None)
  ∧ (is_Some (ListUpdate.type data) → Update.type u ≠ None).
Proof.
  intros Hu. apply elem_of_selected_1 in Hu as [_ Hr].
  unfold composed_restriction, since in Hr. destruct_and!.
  split_and!; intros [v Hv];
    match goal with H : ∀ _, _ = Some _ → _ |- _ =>
      first [ destruct (H v Hv) as (d & -> & _); done
            | rewrite (H v Hv); done ] end.
Qed.

Lemma null_column_never_matches_witness :
  foo_update ∈ selected stable_F20_security sample_db
  ∧ Update.status foo_update ≠ None.
Proof.
  assert (foo_update ∈ selected stable_F20_security sample_db) as Hin
    by (vm_compute; left).
  split; [done |].
  pose proof (null_column_never_matches stable_F20_security sample_db foo_update Hin) as H.
  destruct_and!.
  match goal with H : is_Some (ListUpdate.status _) → _ |- _ => apply H end.
  by eexists.
Defined.

(** * More properties of POST /updates/ *)

(** X6. The POST never answers with a bare success: whatever the
    validators and the aggregate do, a rendered response carries the
    serialization of the update that the create-or-edit step returned, and
    then no error is recorded on the request; a rejection carries at least
    one error, the errors of the request. *)
Theorem post_response_shape Update_edit' Update_new' validators request request' :
  (∀ body,
     call_service validators (new_update Update_edit' Update_new') request
       = (request', rendered body) →
     errors request' = []
     ∧ ∃ up db',
         create_or_edit Update_edit' Update_new' (run_validators validators request)
           (db (run_validators validators request)) = (Ok up, db')
         ∧ body = Some (Update__json__ up)
         ∧ request' = set_db db' (run_validators validators request))
  ∧ (∀ rejected,
       call_service validators (new_update Update_edit' Update_new') request
         = (request', json_error rejected) →
       rejected ≠ [] ∧ rejected = errors request').
Proof.
  unfold call_service, new_update.
  set (checked := run_validators validators request).
  destruct (errors checked) as [|e es] eqn:Hchecked.
  - destruct (create_or_edit Update_edit' Update_new' checked (db checked))
      as [[up|exn] db'] eqn:Hrun; simpl; rewrite Hchecked; simpl.
    + split.
      * intros body [= <- <-]. split; [done |]. by exists up, db'.
      * intros rejected [=].
    + split.
      * intros body [=].
      * intros rejected [= <- <-]. simpl. by rewrite Hchecked.
  - split.
    + intros body [=].
    + intros rejected [= <- <-]. by rewrite Hchecked.
Qed.

(** * Properties of search_pkgs *)

Lemma prefix_append (t s : string) :
  String.prefix t s = true ↔ ∃ post, s = t ++ post.
Proof.
  revert s. induction t as [|a t IH]; intros s.
  - destruct s; simpl; split; eauto.
  - destruct s as [|b s]; simpl.
    + split; [done | intros (post & [=])].
    + destruct (Ascii.ascii_dec a b) as [<- | Hne].
      * rewrite IH. split; intros (post & Hs); exists post.
        -- by rewrite Hs.
        -- change (String a s = String a (t ++ post)) in Hs. congruence.
      * split; [done |]. intros (post & Hs).
        change (String b s = String a (t ++ post)) in Hs. congruence.
Qed.

Lemma contains_substring (term p : string) :
  contains term p = true ↔ ∃ pre post, p = pre ++ term ++ post.
Proof.
  induction p as [|c p IH].
  - change (contains term "") with (String.prefix term "" || false).
    rewrite orb_true_iff, prefix_append. split.
    + intros [(post & Hp) | [=]]. by exists "", post.
    + intros (pre & post & Hp). left. exists post.
      destruct pre; [done | discriminate].
  - change (contains term (String c p))
      with (String.prefix term (String c p) || contains term p).
    rewrite orb_true_iff, prefix_append, IH. split.
    + intros [(post & Hp) | (pre & post & ->)]; [by exists "", post |].
      by exists (String c pre), post.
    + intros (pre & post & Hp). destruct pre as [|c' pre]; simpl in Hp.
      * left. by exists post.
      * right. injection Hp as -> ->. by exists pre, post.
Qed.

Lemma contains_empty_term (p : string) : contains "" p = true.
Proof. apply contains_substring. by exists "", p. Qed.

Lemma matching_packages_with_term GET term packages :
  GET !! "term" = Some term →
  matching_packages GET packages
  = Returned (autocomplete_entry <$> filter (λ p, contains term p) packages).
Proof.
  intros Hterm. induction packages as [|p packages IH]; simpl; [done |].
  rewrite Hterm, IH. simpl. rewrite filter_cons.
  destruct (contains term p); by rewrite ?decide_True, ?decide_False by done.
Qed.

(** X7. With a [term] in the query string, the view returns, in the order
    koji lists them, the entries [{id, label, value}] of exactly the
    packages whose name has the term as a substring. *)
Theorem search_pkgs_finds_substrings listPackages GET term :
  GET !! "term" = Some term →
  ∃ found,
    search_pkgs listPackages GET = Returned (JArr (autocomplete_entry <$> found))
    ∧ found = filter (λ p, contains term p) (package_name <$> listPackages)
    ∧ ∀ p, p ∈ found ↔
           (∃ pkg, pkg ∈ listPackages ∧ package_name pkg = p)
           ∧ ∃ pre post, p = pre ++ term ++ post.
Proof.
  intros Hterm. eexists. split_and!; [| reflexivity |].
  - unfold search_pkgs, get_all_packages.
    by rewrite (matching_packages_with_term _ term).
  - intros p. rewrite list_elem_of_filter, list_elem_of_fmap, Is_true_true,
      contains_substring. naive_solver.
Qed.

Lemma search_pkgs_finds_substrings_witness :
  search_pkgs sample_packages {["term" := "kernel"]}
  = Returned (JArr [autocomplete_entry "kernel"; autocomplete_entry "python-kernel-tools"]).
Proof.
  destruct (search_pkgs_finds_substrings sample_packages {["term" := "kernel"]} "kernel"
              (lookup_singleton_eq _ _)) as (found & -> & -> & _).
  reflexivity.
Defined.

(** X8. With an empty [term] every package koji lists is returned. *)
Theorem search_pkgs_empty_term listPackages GET :
  GET !! "term" = Some "" →
  search_pkgs listPackages GET
  = Returned (JArr (autocomplete_entry <$> (package_name <$> listPackages))).
Proof.
  intros Hterm. unfold search_pkgs, get_all_packages.
  rewrite (matching_packages_with_term _ ""); [| done]. simpl. do 3 f_equal.
  induction (package_name <$> listPackages) as [|p l IH]; [done |].
  rewrite filter_cons, decide_True by (apply Is_true_true, contains_empty_term).
  by rewrite IH.
Qed.

Lemma search_pkgs_empty_term_witness :
  search_pkgs sample_packages {["term" := ""]}
  = Returned (JArr (autocomplete_entry <$> (package_name <$> sample_packages))).
Proof.
  apply (search_pkgs_empty_term sample_packages {["term" := ""]}).
  apply lookup_singleton_eq.
Defined.

(** X9. Without a [term] in the query string the view ends in
    [KeyError], except when koji lists no package: the key is looked up
    once per package, and then the view returns the empty list. *)
Theorem search_pkgs_without_term listPackages GET :
  GET !! "term" = None →
  search_pkgs listPackages GET
  = match listPackages with
    | [] => Returned (JArr [])
    | _ :: _ => Raised (KeyError "term")
    end.
Proof.
  intros Hterm. unfold search_pkgs, get_all_packages.
  destruct listPackages as [|pkg l]; simpl; [done |]. by rewrite Hterm.
Qed.

Lemma search_pkgs_without_term_witness :
  search_pkgs sample_packages ∅ = Raised (KeyError "term")
  ∧ search_pkgs [] ∅ = Returned (JArr []).
Proof.
  split.
  - apply (search_pkgs_without_term sample_packages ∅). apply lookup_empty.
  - apply (search_pkgs_without_term [] ∅). apply lookup_empty.
Defined.

(** * Properties of latest_candidates *)

Lemma queue_candidates pkg (releases : list Release.t) queued :
  foldl (λ koji release, koji_call (candidate_call pkg release) koji)
    (mkKojiSession true queued) releases
  = mkKojiSession true (queued ++ (candidate_call pkg <$> releases)).
Proof.
  revert queued. induction releases as [|r releases IH]; intros queued; simpl.
  - by rewrite app_nil_r.
  - unfold koji_call at 2. simpl. rewrite IH. by rewrite <- app_assoc.
Qed.

Lemma first_nvr_Returned build nvr :
  first_nvr build = Returned nvr → nvr = latest_nvr build.
Proof.
  destruct build as [code msg | [|info infos]]; simpl; [done | congruence |].
  case_decide as Hinfo.
  - subst info. intros [= <-]. by rewrite lookup_empty.
  - destruct (info !! "nvr"); [congruence | done].
Qed.

Lemma first_nvr_Raised build e :
  first_nvr build = Raised e → ∃ key, e = KeyError key.
Proof.
  destruct build as [code msg | [|info infos]]; simpl; [intros [= <-]; eauto | done |].
  case_decide; [done |]. destruct (info !! "nvr"); [done |]. intros [= <-]. eauto.
Qed.

Lemma collect_nvrs_Returned results result out :
  collect_nvrs results result = Returned out →
  out = (result ++ omap latest_nvr results)%list.
Proof.
  revert result. induction results as [|build results IH]; intros result; simpl.
  - intros [= <-]. by rewrite app_nil_r.
  - destruct (first_nvr build) as [nvr|e] eqn:Hfirst; simpl; [| done].
    apply first_nvr_Returned in Hfirst as ->. intros Hout. apply IH in Hout as ->.
    destruct (latest_nvr build); simpl; [by rewrite <- app_assoc | done].
Qed.

Lemma collect_nvrs_Raised results result build e :
  build ∈ results → first_nvr build = Raised e →
  ∃ key, collect_nvrs results result = Raised (KeyError key).
Proof.
  revert result. induction results as [|b results IH]; intros result Hin Hraise.
  - by apply elem_of_nil in Hin.
  - simpl. destruct (first_nvr b) as [nvr|e'] eqn:Hfirst; simpl.
    + apply elem_of_cons in Hin as [-> | Hin]; [congruence |]. by apply IH.
    + apply first_nvr_Raised in Hfirst as (key & ->). by exists key.
Qed.

Lemma latest_candidates_unfold hub params db koji :
  truthy (params !! "package") = true → calls koji = [] →
  latest_candidates hub params db koji
  = (result ← collect_nvrs
                (hub <$> (candidate_call (default "" (params !! "package")) <$> releases db))
                [];
     Returned (JArr (JStr <$> result)),
     mkKojiSession false []).
Proof.
  intros Hpkg Hcalls. unfold latest_candidates. rewrite Hpkg, Hcalls.
  rewrite queue_candidates. unfold koji_multiCall. simpl. done.
Qed.

(** X10. For a package and a session with nothing queued, the view asks
    koji once per release of the store, in the order of the table, for the
    latest build tagged with the candidate tag of the release, all in one
    multicall, and works on the answers in that order; it leaves the
    session out of multicall mode with nothing queued, whether it returns
    or raises. *)
Theorem latest_candidates_asks_every_release hub params db koji :
  truthy (params !! "package") = true → calls koji = [] →
  let pkg := default "" (params !! "package") in
  let asked := (λ r, listTagged (Release.candidate_tag r) pkg true) <$> releases db in
  latest_candidates hub params db koji
  = (result ← collect_nvrs (hub <$> asked) []; Returned (JArr (JStr <$> result)),
     mkKojiSession false []).
Proof. intros Hpkg Hcalls. by apply latest_candidates_unfold. Qed.

Lemma latest_candidates_asks_every_release_witness :
  latest_candidates (λ _, Single [{["nvr" := "foo-1.0-1.fc20"]}])
    {["package" := "foo"]} sample_db (mkKojiSession false [])
  = (Returned (JArr [JStr "foo-1.0-1.fc20"; JStr "foo-1.0-1.fc20"]),
     mkKojiSession false []).
Proof.
  rewrite (latest_candidates_asks_every_release (λ _, Single [{["nvr" := "foo-1.0-1.fc20"]}])
             {["package" := "foo"]} sample_db (mkKojiSession false [])).
  - simpl. rewrite decide_False by (apply insert_non_empty).
    by rewrite lookup_singleton_eq.
  - by rewrite lookup_singleton_eq.
  - reflexivity.
Defined.

Lemma omap_latest_nvr (hub : KojiCall → MultiCallEntry) pkg (l : list Release.t) :
  omap latest_nvr (hub <$> (candidate_call pkg <$> l))
  = omap (λ r, latest_nvr (hub (listTagged (Release.candidate_tag r) pkg true))) l.
Proof.
  induction l as [|r l IH]; [done |]. rewrite !fmap_cons.
  change (omap latest_nvr (hub (candidate_call pkg r) :: (hub <$> (candidate_call pkg <$> l))))
    with (match latest_nvr (hub (candidate_call pkg r)) with
          | Some nvr => nvr :: omap latest_nvr (hub <$> (candidate_call pkg <$> l))
          | None => omap latest_nvr (hub <$> (candidate_call pkg <$> l))
          end).
  by rewrite IH.
Qed.

Lemma omap_length_le {A B} (f : A → option B) (l : list A) :
  (length (omap f l) ≤ length l)%nat.
Proof.
  induction l as [|a l IH]; [done |].
  change (omap f (a :: l))
    with (match f a with Some b => b :: omap f l | None => omap f l end).
  destruct (f a); simpl; lia.
Qed.

(** X11. Without a package (the parameter absent or empty) the view
    returns the empty list and does not touch koji. With one, and nothing
    queued on the session, what it returns has at most one NVR per release
    of the store: for each release whose answer holds a build, the NVR of
    the first build of the answer, in the order of the releases; a release
    with no tagged build is skipped. *)
Theorem latest_candidates_result hub params db koji :
  (truthy (params !! "package") = false →
     latest_candidates hub params db koji = (Returned (JArr []), koji))
  ∧ (truthy (params !! "package") = true → calls koji = [] →
     ∀ items koji',
       latest_candidates hub params db koji = (Returned (JArr items), koji') →
       items = JStr <$> omap (λ r, latest_nvr
                  (hub (listTagged (Release.candidate_tag r)
                          (default "" (params !! "package")) true)))
                  (releases db)
       ∧ (length items ≤ length (releases db))%nat).
Proof.
  split.
  - intros Hpkg. unfold latest_candidates. by rewrite Hpkg.
  - intros Hpkg Hcalls items koji'. rewrite latest_candidates_unfold by done.
    destruct (collect_nvrs _ []) as [result|e] eqn:Hcollect; simpl; [| done].
    intros [= <- <-]. apply collect_nvrs_Returned in Hcollect as ->.
    rewrite app_nil_l, omap_latest_nvr. split; [done |].
    rewrite length_fmap. apply omap_length_le.
Qed.

Lemma latest_candidates_result_witness :
  latest_candidates (λ _, Single []) ∅ sample_db (mkKojiSession false [])
  = (Returned (JArr []), mkKojiSession false []).
Proof.
  apply (latest_candidates_result (λ _, Single []) ∅ sample_db (mkKojiSession false [])).
  by rewrite lookup_empty.
Defined.

(** X12. One fault is enough: when koji answers the call of any release
    with a fault, the view ends in [KeyError] and returns nothing, also
    the candidates of the other releases. *)
Theorem latest_candidates_fault hub params db koji r faultCode faultString :
  truthy (params !! "package") = true → calls koji = [] →
  r ∈ releases db →
  hub (listTagged (Release.candidate_tag r) (default "" (params !! "package")) true)
    = Fault faultCode faultString →
  ∃ key, latest_candidates hub params db koji
         = (Raised (KeyError key), mkKojiSession false []).
Proof.
  intros Hpkg Hcalls Hr Hfault. rewrite latest_candidates_unfold by done.
  destruct (collect_nvrs_Raised
              (hub <$> (candidate_call (default "" (params !! "package")) <$> releases db))
              [] (Fault faultCode faultString) (KeyError "0")) as (key & ->).
  - rewrite <- Hfault. apply list_elem_of_fmap_2.
    by apply (list_elem_of_fmap_2 (candidate_call _)).
  - done.
  - by exists key.
Qed.

Lemma latest_candidates_fault_witness :
  ∃ key,
    latest_candidates
      (λ call, match call with
               | listTagged "f21-updates-candidate" _ _ => Fault 1000 "No such tag"
               | _ => Single [{["nvr" := "foo-1.0-1.fc20"]}]
               end)
      {["package" := "foo"]} sample_db (mkKojiSession false [])
    = (Raised (KeyError key), mkKojiSession false []).
Proof.
  apply (latest_candidates_fault _ {["package" := "foo"]} sample_db
           (mkKojiSession false []) F21 1000 "No such tag").
  - by rewrite lookup_singleton_eq.
  - reflexivity.
  - right. left.
  - reflexivity.
Defined.

(** * Properties of metrics *)

Section metrics_properties.
Variable name_like_F : string → bool.
Variable version_int : Release.t → Z.

Lemma insert_by_version_Permutation x l :
  insert_by_version version_int x l ≡ₚ x :: l.
Proof.
  induction l as [|y l IH]; simpl; [done |].
  case_bool_decide; [done |]. rewrite IH. apply Permutation_swap.
Qed.

Lemma sorted_by_version_Permutation l :
  sorted_by_version version_int l ≡ₚ l.
Proof.
  induction l as [|x l IH]; simpl; [done |].
  unfold sorted_by_version in *. simpl.
  by rewrite insert_by_version_Permutation, IH.
Qed.

Lemma insert_by_version_Sorted x l :
  Sorted (λ x y, version_int x ≤ version_int y) l → Sorted (λ x y, version_int x ≤ version_int y) (insert_by_version version_int x l).
Proof.
  induction l as [|y l IH]; simpl; intros Hs.
  - repeat constructor.
  - apply Sorted_inv in Hs as [Hs Hhd]. case_bool_decide as Hle.
    + constructor; [by constructor | by constructor].
    + constructor; [by apply IH |].
      destruct l as [|z l]; simpl.
      * constructor. simpl. lia.
      * case_bool_decide.
        -- constructor. simpl. lia.
        -- constructor. by apply HdRel_inv in Hhd.
Qed.

Lemma sorted_by_version_Sorted l :
  Sorted (λ x y, version_int x ≤ version_int y) (sorted_by_version version_int l).
Proof.
  induction l as [|x l IH]; simpl; [constructor |].
  by apply insert_by_version_Sorted.
Qed.

Lemma sorted_by_version_of_Sorted l :
  Sorted (λ x y, version_int x ≤ version_int y) l → sorted_by_version version_int l = l.
Proof.
  induction l as [|x l IH]; [done |]. intros Hs.
  apply Sorted_inv in Hs as [Hs Hhd].
  change (sorted_by_version version_int (x :: l))
    with (insert_by_version version_int x (sorted_by_version version_int l)).
  rewrite IH by done. destruct l as [|y l]; simpl; [done |].
  apply HdRel_inv in Hhd. by rewrite bool_decide_eq_true_2.
Qed.

(** X13. The ticks number from 0 the names of the releases whose name is
    LIKE 'F%', each such release of the store once, in ascending order of
    version. *)
Theorem metrics_ticks_sorted db :
  ∃ sorted,
    metrics_ticks name_like_F version_int db
    = imap (λ i r, (Z.of_nat i, Release.name r)) sorted
    ∧ Sorted (λ x y, version_int x ≤ version_int y) sorted
    ∧ sorted ≡ₚ metrics_releases name_like_F db
    ∧ ∀ r, r ∈ sorted ↔ r ∈ releases db ∧ name_like_F (Release.name r) = true.
Proof.
  exists (sorted_by_version version_int (metrics_releases name_like_F db)). split_and!.
  - unfold metrics_ticks, enumerate. rewrite fmap_imap. done.
  - apply sorted_by_version_Sorted.
  - apply sorted_by_version_Permutation.
  - intros r. rewrite sorted_by_version_Permutation. unfold metrics_releases.
    rewrite list_elem_of_In, filter_In, <- list_elem_of_In. done.
Qed.

Lemma filter_base_rows (c : Comparison) (P : Update.t → Prop) `{∀ u, Decision (P u)}
    (l : list Update.t) :
  (∀ u, c (mkRow u None None None None) = true ↔ P u) →
  filter (λ row, holds (Compare c) row) ((λ u, mkRow u None None None None) <$> l)
  = (λ u, mkRow u None None None None) <$> filter P l.
Proof.
  intros Hc. induction l as [|u l IH]; [done |].
  rewrite fmap_cons, !filter_cons, IH.
  destruct (decide (P u)) as [HP | HP].
  - rewrite decide_True; [done |]. simpl. by apply Is_true_true, Hc.
  - rewrite decide_False; [done |]. simpl. by rewrite Is_true_true, Hc.
Qed.

Lemma count_stable_rows release type (l : list Update.t) :
  length (filter (λ row, holds (Compare (eq_ Update.status stable)) row)
            (filter (λ row, holds (Compare (eq_ Update.type type)) row)
               (filter (λ row, holds (Compare (Update_release_eq release)) row)
                  ((λ u, mkRow u None None None None) <$> l))))
  = length (filter (stable_update_of release type) l).
Proof.
  rewrite (filter_base_rows _
             (λ u, Release.id <$> Update.release u = Some (Release.id release))).
  2:{ intros u. unfold Update_release_eq. simpl.
      destruct (Update.release u) as [r'|]; simpl; [| done].
      rewrite bool_decide_eq_true. split; congruence. }
  rewrite (filter_base_rows _ (λ u, Update.type u = Some type)).
  2:{ intros u. unfold eq_. simpl. by rewrite bool_decide_eq_true. }
  rewrite (filter_base_rows _ (λ u, Update.status u = Some stable)).
  2:{ intros u. unfold eq_. simpl. by rewrite bool_decide_eq_true. }
  rewrite length_fmap, !list_filter_filter. f_equal.
  apply list_filter_iff. intros u. unfold stable_update_of. tauto.
Qed.

(** X14. Each series has one point per release of the query, numbered
    from 0 in the order of the query, and the point of a release counts
    the updates of the store that are of that release, of the type of the
    series, and stable. *)
Theorem metrics_series_counts db type :
  metrics_series name_like_F db type
  = imap (λ i r, (Z.of_nat i,
                  Z.of_nat (length (filter (stable_update_of r type) (updates db)))))
      (metrics_releases name_like_F db)
  ∧ length (metrics_series name_like_F db type)
    = length (metrics_releases name_like_F db).
Proof.
  assert (metrics_series name_like_F db type
    = imap (λ i r, (Z.of_nat i,
                    Z.of_nat (length (filter (stable_update_of r type) (updates db)))))
        (metrics_releases name_like_F db)) as Heq.
  { unfold metrics_series, enumerate. rewrite fmap_imap. apply imap_ext.
    intros i r _. simpl. f_equal. unfold count_stable. f_equal.
    apply count_stable_rows. }
  split; [done |]. by rewrite Heq, length_imap.
Qed.

Lemma lists_differ_somewhere {A} `{EqDecision A} (l1 l2 : list A) :
  length l1 = length l2 → l1 ≠ l2 →
  ∃ i x y, l1 !! i = Some x ∧ l2 !! i = Some y ∧ x ≠ y.
Proof.
  revert l2. induction l1 as [|a l1 IH]; intros [|b l2] Hlen Hne; try done.
  destruct (decide (a = b)) as [-> | Hab].
  - destruct (IH l2) as (i & x & y & ? & ? & ?); [by injection Hlen | congruence |].
    by exists (S i), x, y.
  - by exists 0%nat, a, b.
Qed.

(** X15. The ticks and the points of a series are about the same
    releases only when the query returns the releases in ascending order
    of version: then tick [i] names the release that point [i] counts;
    otherwise there is an index whose tick is taken from another release
    than its point. *)
Theorem metrics_ticks_match_series db :
  let releases := metrics_releases name_like_F db in
  (Sorted (λ x y, version_int x ≤ version_int y) releases →
     metrics_ticks name_like_F version_int db
     = imap (λ i r, (Z.of_nat i, Release.name r)) releases)
  ∧ (¬ Sorted (λ x y, version_int x ≤ version_int y) releases →
     ∃ i ticked counted,
       sorted_by_version version_int releases !! i = Some ticked
       ∧ releases !! i = Some counted
       ∧ ticked ≠ counted).
Proof.
  intros releases. split.
  - intros Hs. unfold metrics_ticks, enumerate. fold releases.
    rewrite sorted_by_version_of_Sorted by done. by rewrite fmap_imap.
  - intros Hns. apply lists_differ_somewhere.
    + apply Permutation_length, sorted_by_version_Permutation.
    + intros Heq. apply Hns. rewrite <- Heq. apply sorted_by_version_Sorted.
Qed.
End metrics_properties.

Lemma metrics_ticks_match_series_witness :
  ∃ i ticked counted,
    sorted_by_version Release.id
      (metrics_releases (String.prefix "F") (mkStore [] [F21; F20] [] [])) !! i
    = Some ticked
    ∧ metrics_releases (String.prefix "F") (mkStore [] [F21; F20] [] []) !! i = Some counted
    ∧ ticked ≠ counted.
Proof.
  apply (metrics_ticks_match_series (String.prefix "F") Release.id
           (mkStore [] [F21; F20] [] [])).
  intros Hs. apply Sorted_inv in Hs as [_ Hhd]. apply HdRel_inv in Hhd.
  vm_compute in Hhd. done.
Defined.
